(** * The CLAUDE.md tier merger ([claude-system/merger.py])

    A shallow embedding of [ClaudeMerger]: the [Section] dataclass, the four
    tier passes, the role filter, the change analysis, the renderer and the
    [merge] entry point, followed by the properties of the layered
    resolution.

    Conventions of the embedding.
    - A Python [dict] is an association list in insertion order
      ([d[k] = v] overwrites in place or appends), because both the renderer
      (a stable sort of [sections.values()]) and the change analysis iterate
      in that order.
    - The [source] field is a [str] in Python; the dataclass documents its
      four values, which are the constructors of [Source] here.
    - Library calls whose result is not computed here are the fields of
      [PyLib]: [re.split] with the header pattern, [str.strip], [str.lower]
      and the MD5 hex digest.
    - The files the program touches form the record [FileSystem]; the project
      directory itself is taken to exist, and [.claude-company],
      [.claude-project] to be directories when present.
    - [datetime.now()] and [os.getenv('CLAUDE_DEBUG')] are the fields of
      [Ambient].  Logging and console output are not modelled.
    - File reads and writes are taken to succeed: decoding, encoding and
      operating-system errors, and a configuration file that loads to
      [None], are outside the model, so a statement about what [merge]
      returns or writes is about a run whose reads and writes succeed. *)

From Stdlib Require Import String Ascii List Bool Arith Lia.
From Stdlib Require Import Sorted Permutation DecimalString.
Import ListNotations.
Open Scope string_scope.

(** ** Library primitives *)

Class PyLib : Type := {
  (** [re.split(r'^(#{1,6})\s+(.+)$', content, flags=re.MULTILINE)] *)
  re_split_headers : string -> list string;
  (** [str.strip()] *)
  str_strip : string -> string;
  (** [str.lower()] *)
  str_lower : string -> string;
  (** [hashlib.md5(s.encode()).hexdigest()] *)
  md5_hexdigest : string -> string
}.

Definition nl : string := String (ascii_of_nat 10) EmptyString.

(** [sub in s] on Python strings. *)
Fixpoint str_contains (sub s : string) : bool :=
  String.prefix sub s ||
  match s with
  | EmptyString => false
  | String _ s' => str_contains sub s'
  end.

(** [c * n] for a one-character string. *)
Fixpoint str_repeat (c : string) (n : nat) : string :=
  match n with
  | O => EmptyString
  | S n' => c ++ str_repeat c n'
  end.

(** [str(n)] for a non-negative [int]. *)
Definition str_of_nat (n : nat) : string :=
  NilEmpty.string_of_uint (Nat.to_uint n).

(** [s.split('\n')] *)
Fixpoint split_lines_aux (cur : string) (s : string) : list string :=
  match s with
  | EmptyString => [cur]
  | String c s' =>
      if Ascii.eqb c (ascii_of_nat 10)
      then cur :: split_lines_aux EmptyString s'
      else split_lines_aux (cur ++ String c EmptyString) s'
  end.

Definition split_lines (s : string) : list string :=
  split_lines_aux EmptyString s.

(** ** The [Section] dataclass *)

Inductive Source : Type := universal | company | project | developer.

Definition Source_eqb (a b : Source) : bool :=
  match a, b with
  | universal, universal | company, company
  | project, project | developer, developer => true
  | _, _ => false
  end.

Definition Source_str (a : Source) : string :=
  match a with
  | universal => "universal"
  | company => "company"
  | project => "project"
  | developer => "developer"
  end.

Record MdSection : Type := mkSection {
  title : string;
  content : string;
  level : nat;
  source : Source;
  checksum : string;
  override_allowed : bool;
  metadata : list (string * string)
}.

Section Merger.

Context {lib : PyLib}.

(** [__post_init__]: an empty checksum is replaced by the digest of the
    content. *)
Definition post_init (s : MdSection) : MdSection :=
  if String.eqb (checksum s) EmptyString
  then mkSection (title s) (content s) (level s) (source s)
                 (md5_hexdigest (content s)) (override_allowed s) (metadata s)
  else s.

(** [Section(title=..., content=..., level=..., source=...)]: the other
    fields take their defaults. *)
Definition new_Section (t c : string) (l : nat) (src : Source) : MdSection :=
  post_init (mkSection t c l src EmptyString true []).

(** ** Ordered dictionaries *)

Definition Dict : Type := list (string * MdSection).

Fixpoint dict_get (k : string) (d : Dict) : option MdSection :=
  match d with
  | [] => None
  | (k', v) :: d' => if String.eqb k k' then Some v else dict_get k d'
  end.

Definition dict_mem (k : string) (d : Dict) : bool :=
  match dict_get k d with Some _ => true | None => false end.

(** [d[k] = v] *)
Fixpoint dict_set (k : string) (v : MdSection) (d : Dict) : Dict :=
  match d with
  | [] => [(k, v)]
  | (k', v') :: d' =>
      if String.eqb k k' then (k, v) :: d' else (k', v') :: dict_set k v d'
  end.

Definition dict_keys (d : Dict) : list string := map fst d.
Definition dict_values (d : Dict) : list MdSection := map snd d.

(** [metadata[k] = v] on the annotation dictionary. *)
Fixpoint meta_set (k v : string) (m : list (string * string))
  : list (string * string) :=
  match m with
  | [] => [(k, v)]
  | (k', v') :: m' =>
      if String.eqb k k' then (k, v) :: m' else (k', v') :: meta_set k v m'
  end.

(** ** [parse_markdown_sections] *)

(** The [while i < len(parts) - 2] loop, started at [i = 1]: it consumes
    [parts[i], parts[i+1], parts[i+2]] as long as all three exist. *)
Fixpoint parse_parts (parts : list string) (src : Source) : list MdSection :=
  match parts with
  | hashes :: ttl :: body :: rest =>
      new_Section (str_strip ttl) (str_strip body) (String.length hashes) src
        :: parse_parts rest src
  | _ => []
  end.

Definition parse_markdown_sections (text : string) (src : Source)
  : list MdSection :=
  match re_split_headers text with
  | [] => []
  | _ :: parts => parse_parts parts src
  end.

(** ** Configuration and files *)

Record RoleConfig : Type := { exclude_sections : list string }.

Record CompanyConfig : Type := {
  (** [config['company']['roles']], when the key is present *)
  roles : option (list (string * RoleConfig))
}.

Record ProjectConfig : Type := {
  (** truth value of [config['project']['developer_overrides']['enabled']] *)
  developer_overrides_enabled : bool;
  (** [config['project']['primary_role']], when the key is present *)
  primary_role : option string
}.

Record Config : Type := {
  cfg_company : option CompanyConfig;
  cfg_project : option ProjectConfig
}.

Record CompanyDir : Type := { standards_md : option string }.

Record ProjectDir : Type := {
  overrides_md : option string;
  (** [developer/<username>.md] *)
  developer_md : string -> option string;
  dry_run_report_txt : option string;
  CLAUDE_md_preview : option string
}.

Record FileSystem : Type := {
  (** [claude-system/base/core.md] *)
  core_md : option string;
  (** [claude-system/base/languages/*.md] as (stem, text), in [glob] order *)
  languages_dir : option (list (string * string));
  claude_company : option CompanyDir;
  claude_project : option ProjectDir;
  (** the destination and its backup *)
  CLAUDE_md : option string;
  CLAUDE_md_backup : option string
}.

Record Ambient : Type := {
  (** [datetime.now().strftime(...)] as read by [generate_claude_md] *)
  now_generate : string;
  (** the same, as read by [generate_dry_run_report] *)
  now_report : string;
  (** truth value of [os.getenv('CLAUDE_DEBUG')] *)
  CLAUDE_DEBUG : bool
}.

(** ** Tier 1: [load_universal_base] *)

Definition core_step (d : Dict) (s : MdSection) : Dict :=
  dict_set (title s) s d.

Definition language_step (stem : string) (d : Dict) (s : MdSection) : Dict :=
  let s' := mkSection (title s) (content s) (level s) (source s) (checksum s)
                      (override_allowed s)
                      (meta_set "language" stem (metadata s)) in
  dict_set (stem ++ ":" ++ title s) s' d.

Definition language_file_step (d : Dict) (f : string * string) : Dict :=
  fold_left (language_step (fst f))
            (parse_markdown_sections (snd f) universal) d.

Definition load_universal_base (fs : FileSystem) : Dict :=
  let base_sections :=
    match core_md fs with
    | Some text => fold_left core_step (parse_markdown_sections text universal) []
    | None => []
    end in
  match languages_dir fs with
  | Some files => fold_left language_file_step files base_sections
  | None => base_sections
  end.

(** ** Role filter: [_apply_role_filters] *)

Fixpoint assoc_get {A : Type} (k : string) (l : list (string * A)) : option A :=
  match l with
  | [] => None
  | (k', v) :: l' => if String.eqb k k' then Some v else assoc_get k l'
  end.

Definition config_primary_role (cfg : Config) : string :=
  match cfg_project cfg with
  | Some p => match primary_role p with Some r => r | None => "fullstack" end
  | None => "fullstack"
  end.

Definition config_role_config (cfg : Config) (role : string) : option RoleConfig :=
  match cfg_company cfg with
  | Some c => match roles c with Some rs => assoc_get role rs | None => None end
  | None => None
  end.

Definition excluded (excl : list string) (s : MdSection) : bool :=
  existsb (fun e => str_contains e (str_lower (title s))) excl.

Definition _apply_role_filters (cfg : Config) (sections : Dict) : Dict :=
  match config_role_config cfg (config_primary_role cfg) with
  | None => sections
  | Some rc =>
      filter (fun kv => negb (excluded (exclude_sections rc) (snd kv))) sections
  end.

(** ** Tier 2: [apply_company_overrides] *)

(** Both branches of the loop body assign [sections[section.title]]. *)
Definition company_step (d : Dict) (s : MdSection) : Dict :=
  if dict_mem (title s) d then dict_set (title s) s d
  else dict_set (title s) s d.

Definition config_has_roles (cfg : Config) : bool :=
  match cfg_company cfg with
  | Some c => match roles c with Some _ => true | None => false end
  | None => false
  end.

Definition apply_company_overrides (cfg : Config) (fs : FileSystem)
  (base_sections : Dict) : Dict :=
  match claude_company fs with
  | None => base_sections
  | Some cd =>
      let sections :=
        match standards_md cd with
        | Some text =>
            fold_left company_step (parse_markdown_sections text company)
                      base_sections
        | None => base_sections
        end in
      if config_has_roles cfg then _apply_role_filters cfg sections
      else sections
  end.

(** ** Tier 3: [apply_project_customizations] *)

Definition project_step (d : Dict) (s : MdSection) : Dict :=
  match dict_get (title s) d with
  | Some existing =>
      if negb (override_allowed existing) && Source_eqb (source existing) company
      then d
      else dict_set (title s) s d
  | None => dict_set (title s) s d
  end.

Definition apply_project_customizations (fs : FileSystem) (sections : Dict)
  : Dict :=
  match claude_project fs with
  | Some pd =>
      match overrides_md pd with
      | Some text =>
          fold_left project_step (parse_markdown_sections text project) sections
      | None => sections
      end
  | None => sections
  end.

(** ** Tier 4: [apply_developer_preferences] *)

Definition developer_step (d : Dict) (s : MdSection) : Dict :=
  match dict_get (title s) d with
  | Some existing =>
      if Source_eqb (source existing) universal
         || Source_eqb (source existing) company
      then d
      else dict_set (title s) s d
  | None => dict_set (title s) s d
  end.

Definition config_developer_enabled (cfg : Config) : bool :=
  match cfg_project cfg with
  | Some p => developer_overrides_enabled p
  | None => false
  end.

Definition apply_developer_preferences (cfg : Config) (fs : FileSystem)
  (sections : Dict) (username : string) : Dict :=
  if negb (config_developer_enabled cfg) then sections
  else
    match claude_project fs with
    | Some pd =>
        match developer_md pd username with
        | Some text =>
            fold_left developer_step
                      (parse_markdown_sections text developer) sections
        | None => sections
        end
    | None => sections
    end.

(** ** Rendering: [generate_claude_md] *)

(** The sort key [(s.level, s.title)] under Python's tuple comparison.
    Strings are UTF-8 byte strings here, and the lexicographic order on
    UTF-8 bytes is the order on code points that Python uses. *)
Definition key_ltb (a b : MdSection) : bool :=
  Nat.ltb (level a) (level b) ||
  (Nat.eqb (level a) (level b) && String.ltb (title a) (title b)).

(** [sorted] is a stable sort; a stable insertion sort returns the same
    list. *)
Fixpoint sorted_insert (x : MdSection) (l : list MdSection) : list MdSection :=
  match l with
  | [] => [x]
  | y :: l' => if key_ltb y x then y :: sorted_insert x l' else x :: y :: l'
  end.

Definition sorted_sections (sections : Dict) : list MdSection :=
  fold_right sorted_insert [] (dict_values sections).

Definition render_section (debug : bool) (s : MdSection) : list string :=
  [str_repeat "#" (level s) ++ " " ++ title s; EmptyString]
  ++ (if String.eqb (content s) EmptyString then []
      else [content s; EmptyString])
  ++ (if debug
      then ["<!-- Source: " ++ Source_str (source s) ++ ", Checksum: "
              ++ checksum s ++ " -->"; EmptyString]
      else []).

Definition generate_claude_md_lines (amb : Ambient) (sections : Dict)
  : list string :=
  ["# CLAUDE.md - Generated " ++ now_generate amb;
   EmptyString;
   "*This file is auto-generated from 3-tier template system. Do not edit directly.*";
   EmptyString]
  ++ flat_map (render_section (CLAUDE_DEBUG amb)) (sorted_sections sections).

Definition generate_claude_md (amb : Ambient) (sections : Dict) : string :=
  String.concat nl (generate_claude_md_lines amb sections).

(** ** Change analysis: [analyze_changes] *)

Record SectionItem : Type := {
  item_section : string;
  item_source : Source;
  item_title : string
}.

Record ModifiedItem : Type := {
  mod_section : string;
  mod_source_before : Source;
  mod_source_after : Source;
  mod_title : string
}.

Record Violation : Type := {
  viol_section : string;
  viol_policy : string;
  viol_attempted_by : Source
}.

Record Changes : Type := {
  added : list SectionItem;
  removed : list SectionItem;
  modified : list ModifiedItem;
  conflicts : list unit;
  policy_violations : list Violation
}.

Definition added_of (sections_before : Dict) (kv : string * MdSection)
  : list SectionItem :=
  if dict_mem (fst kv) sections_before then []
  else [ {| item_section := fst kv; item_source := source (snd kv);
            item_title := title (snd kv) |} ].

Definition removed_of (sections_after : Dict) (kv : string * MdSection)
  : list SectionItem :=
  if dict_mem (fst kv) sections_after then []
  else [ {| item_section := fst kv; item_source := source (snd kv);
            item_title := title (snd kv) |} ].

Definition modified_of (sections_before : Dict) (kv : string * MdSection)
  : list ModifiedItem :=
  match dict_get (fst kv) sections_before with
  | Some before =>
      if negb (String.eqb (checksum (snd kv)) (checksum before))
      then [ {| mod_section := fst kv; mod_source_before := source before;
                mod_source_after := source (snd kv);
                mod_title := title (snd kv) |} ]
      else []
  | None => []
  end.

Definition violation_of (sections_before : Dict) (kv : string * MdSection)
  : list Violation :=
  if Source_eqb (source (snd kv)) project then
    match dict_get (fst kv) sections_before with
    | Some original =>
        if Source_eqb (source original) company
           && negb (override_allowed original)
        then [ {| viol_section := fst kv;
                  viol_policy := "Cannot override company policy";
                  viol_attempted_by := source (snd kv) |} ]
        else []
    | None => []
    end
  else [].

Definition analyze_changes (cfg : Config) (sections_before sections_after : Dict)
  : Changes :=
  {| added := flat_map (added_of sections_before) sections_after;
     removed := flat_map (removed_of sections_after) sections_before;
     modified := flat_map (modified_of sections_before) sections_after;
     conflicts := [];
     policy_violations :=
       match cfg_company cfg with
       | Some _ => flat_map (violation_of sections_before) sections_after
       | None => []
       end |}.

(** ** [generate_dry_run_report] *)

Definition report_added (l : list SectionItem) : list string :=
  match l with
  | [] => []
  | _ =>
      ["ADDED SECTIONS"; str_repeat "-" 20]
      ++ map (fun i => "+ " ++ item_title i ++ " (from: "
                         ++ Source_str (item_source i) ++ ")") l
      ++ [EmptyString]
  end.

Definition report_removed (l : list SectionItem) : list string :=
  match l with
  | [] => []
  | _ =>
      ["REMOVED SECTIONS"; str_repeat "-" 20]
      ++ map (fun i => "- " ++ item_title i ++ " (was from: "
                         ++ Source_str (item_source i) ++ ")") l
      ++ [EmptyString]
  end.

Definition report_modified (l : list ModifiedItem) : list string :=
  match l with
  | [] => []
  | _ =>
      ["MODIFIED SECTIONS"; str_repeat "-" 20]
      ++ flat_map (fun i =>
           ["~ " ++ mod_title i;
            "  Before: " ++ Source_str (mod_source_before i);
            "  After: " ++ Source_str (mod_source_after i)]) l
      ++ [EmptyString]
  end.

Definition report_violations (l : list Violation) : list string :=
  match l with
  | [] => []
  | _ =>
      ["⚠️  POLICY VIOLATIONS"; str_repeat "-" 20]
      ++ flat_map (fun v =>
           ["❌ Section: " ++ viol_section v;
            "   Policy: " ++ viol_policy v;
            "   Attempted by: " ++ Source_str (viol_attempted_by v)]) l
      ++ [EmptyString]
  end.

Definition generate_dry_run_report (amb : Ambient) (changes : Changes)
  (text : string) : string :=
  String.concat nl
    ([str_repeat "=" 60; "CLAUDE.md DRY RUN REPORT"; str_repeat "=" 60;
      "Generated: " ++ now_report amb; EmptyString;
      "SUMMARY"; str_repeat "-" 20;
      "✅ Added sections: " ++ str_of_nat (List.length (added changes));
      "❌ Removed sections: " ++ str_of_nat (List.length (removed changes));
      "📝 Modified sections: " ++ str_of_nat (List.length (modified changes));
      "⚠️  Conflicts: " ++ str_of_nat (List.length (conflicts changes));
      "🚫 Policy violations: "
        ++ str_of_nat (List.length (policy_violations changes));
      EmptyString]
     ++ report_added (added changes)
     ++ report_removed (removed changes)
     ++ report_modified (modified changes)
     ++ report_violations (policy_violations changes)
     ++ ["PREVIEW (first 50 lines)"; str_repeat "-" 20]
     ++ firstn 50 (split_lines text)
     ++ (if Nat.ltb 50 (List.length (split_lines text))
         then ["... (truncated)"] else [])).

(** ** [merge] *)

Inductive Outcome : Type :=
| Returned (text : string)
| Raised_ValueError (msg : string).

(** [username] as a condition: [None] and the empty string are false. *)
Definition username_given (username : option string) : option string :=
  match username with
  | Some u => if String.eqb u EmptyString then None else Some u
  | None => None
  end.

(** Lines 376-389 of [merge]: the baseline [sections_original] and the
    mapping after all tiers. *)
Definition merge_sections (cfg : Config) (fs : FileSystem)
  (username : option string) : Dict * Dict :=
  let sections_original := load_universal_base fs in
  let sections := apply_company_overrides cfg fs sections_original in
  let sections := apply_project_customizations fs sections in
  let sections :=
    match username_given username with
    | Some u => apply_developer_preferences cfg fs sections u
    | None => sections
    end in
  (sections_original, sections).

Definition empty_project_dir : ProjectDir :=
  {| overrides_md := None; developer_md := fun _ => None;
     dry_run_report_txt := None; CLAUDE_md_preview := None |}.

(** Lines 394-450 of [merge]: the dry-run branch writes the report and the
    preview under [.claude-project]; the other branch raises on a policy
    violation, and otherwise moves an existing [CLAUDE.md] to
    [CLAUDE.md.backup] and writes the new one. *)
Definition merge_output (cfg : Config) (amb : Ambient) (dry_run : bool)
  (sections_original sections : Dict) (text : string) (fs : FileSystem)
  : Outcome * FileSystem :=
  if dry_run then
    let changes := analyze_changes cfg sections_original sections in
    let report := generate_dry_run_report amb changes text in
    let pd := match claude_project fs with
              | Some pd => pd
              | None => empty_project_dir
              end in
    let pd := {| overrides_md := overrides_md pd;
                 developer_md := developer_md pd;
                 dry_run_report_txt := Some report;
                 CLAUDE_md_preview := Some text |} in
    (Returned report,
     {| core_md := core_md fs; languages_dir := languages_dir fs;
        claude_company := claude_company fs; claude_project := Some pd;
        CLAUDE_md := CLAUDE_md fs; CLAUDE_md_backup := CLAUDE_md_backup fs |})
  else
    let changes := analyze_changes cfg sections_original sections in
    match policy_violations changes with
    | _ :: _ =>
        (Raised_ValueError
           "Policy violations prevent merge. Run with --dry-run to see details.",
         fs)
    | [] =>
        let backup := match CLAUDE_md fs with
                      | Some old => Some old
                      | None => CLAUDE_md_backup fs
                      end in
        (Returned text,
         {| core_md := core_md fs; languages_dir := languages_dir fs;
            claude_company := claude_company fs;
            claude_project := claude_project fs;
            CLAUDE_md := Some text; CLAUDE_md_backup := backup |})
    end.

Definition merge (cfg : Config) (amb : Ambient) (fs : FileSystem)
  (username : option string) (dry_run : bool) : Outcome * FileSystem :=
  let '(sections_original, sections) := merge_sections cfg fs username in
  let text := generate_claude_md amb sections in
  merge_output cfg amb dry_run sections_original sections text fs.

End Merger.

(** ** Predicates of the statements *)

Section Predicates.

Context {lib : PyLib}.

(** A dictionary has each key once. *)
Definition dict_wf (d : Dict) : Prop := NoDup (dict_keys d).

(** What [parse_markdown_sections] fixes in every section it builds. *)
Definition parsed_as (src : Source) (s : MdSection) : Prop :=
  source s = src /\ override_allowed s = true.

(** The entries the project step refuses to replace. *)
Definition locked_company (e : MdSection) : Prop :=
  override_allowed e = false /\ source e = company.

(** The entries the developer step refuses to replace. *)
Definition policy_tier (e : MdSection) : Prop :=
  source e = universal \/ source e = company.

(** After the project pass every entry either is the one the pass started
    from, or sits at an identity whose starting entry was not a
    non-overridable organization section. *)
Definition project_trace (M after : Dict) : Prop :=
  dict_wf after /\
  forall k, dict_get k after = dict_get k M \/
            (forall o, dict_get k M = Some o -> ~ locked_company o).

(** Every value of the dictionary satisfies [Q]. *)
Definition dict_all (Q : MdSection -> Prop) (d : Dict) : Prop :=
  forall k v, dict_get k d = Some v -> Q v.

Definition dict_inv (Q : MdSection -> Prop) (d : Dict) : Prop :=
  dict_wf d /\ dict_all Q d.

Definition overridable (s : MdSection) : Prop := override_allowed s = true.

(** [.claude-project/overrides.md] and [.claude-project/developer/<u>.md],
    absent when the directory is. *)
Definition project_overrides (fs : FileSystem) : option string :=
  match claude_project fs with
  | Some pd => overrides_md pd
  | None => None
  end.

Definition project_developer (fs : FileSystem) (u : string) : option string :=
  match claude_project fs with
  | Some pd => developer_md pd u
  | None => None
  end.

(** The files the four tiers are read from. *)
Definition same_tier_inputs (fs fs' : FileSystem) : Prop :=
  core_md fs' = core_md fs /\
  languages_dir fs' = languages_dir fs /\
  claude_company fs' = claude_company fs /\
  project_overrides fs' = project_overrides fs /\
  forall u, project_developer fs' u = project_developer fs u.

(** The entry at [k] exists and its tier is one of [tiers]. *)
Definition held_by (tiers : Source -> Prop) (k : string) (M : Dict) : Prop :=
  exists v, dict_get k M = Some v /\ tiers (source v).

(** A tier file that the parser splits into a section titled [k]. *)
Definition supplies (file : option string) (src : Source) (k : string) : Prop :=
  exists text s, file = Some text /\
                 In s (parse_markdown_sections text src) /\ title s = k.

(** [a] may precede [b] in the sorted output. *)
Definition key_le (a b : MdSection) : Prop :=
  level a < level b \/
  (level a = level b /\ String.leb (title a) (title b) = true).

(** Two sections with the same sort key. *)
Definition same_key (a b : MdSection) : bool :=
  Nat.eqb (level a) (level b) && String.eqb (title a) (title b).

(** The order the specification describes: level first, then the identity
    under which the mapping holds the section. *)
Definition rendered_in_identity_order (M : Dict) : Prop :=
  forall pre s1 mid s2 post k1 k2,
    sorted_sections M = (pre ++ s1 :: mid ++ s2 :: post)%list ->
    In (k1, s1) M -> In (k2, s2) M ->
    level s1 < level s2 \/
    (level s1 = level s2 /\ String.leb k1 k2 = true).

(** What the constructor call in [parse_markdown_sections] fixes, digest
    included. *)
Definition parsed_section (src : Source) (s : MdSection) : Prop :=
  source s = src /\ override_allowed s = true /\
  checksum s = md5_hexdigest (content s).

(** How [load_universal_base] keys a section: by its title, or by
    [<stem>:<title>] with the stem recorded under [language]. *)
Definition universal_entry (k : string) (v : MdSection) : Prop :=
  source v = universal /\
  (k = title v \/
   exists stem, k = stem ++ ":" ++ title v /\
                assoc_get "language" (metadata v) = Some stem).

(** Every entry of the dictionary satisfies [Q] with its key. *)
Definition dict_all_keyed (Q : string -> MdSection -> Prop) (d : Dict) : Prop :=
  dict_wf d /\ forall k v, dict_get k d = Some v -> Q k v.

(** The last section of the list titled [k]. *)
Definition last_titled (k : string) (l : list MdSection) : option MdSection :=
  fold_left (fun acc s => if String.eqb (title s) k then Some s else acc)
            l None.

(** The entry at [k] once a tier's sections have all been assigned. *)
Definition overridden_by (k : string) (l : list MdSection) (d : Dict)
  : option MdSection :=
  match last_titled k l with
  | Some s => Some s
  | None => dict_get k d
  end.

(** [e] occurs in [s] as a substring. *)
Definition occurs_in (e s : string) : Prop :=
  exists pre post, s = pre ++ e ++ post.

(** The sections of a tier file, none when the file is absent. *)
Definition tier_sections (file : option string) (src : Source)
  : list MdSection :=
  match file with
  | Some text => parse_markdown_sections text src
  | None => []
  end.


(** [d'] lists the keys of [d] first, in the same order. *)
Definition keys_extend (d d' : Dict) : Prop :=
  exists new, dict_keys d' = (dict_keys d ++ new)%list.


End Predicates.

(** ** Concrete inputs

    The library instance used by the closed examples below.  [re.split],
    [str.strip], [str.lower] and MD5 are given by their values on the texts of
    the examples (ASCII text; the digests are the real MD5 values). *)

Definition ex_base_A : string := "# A" ++ nl ++ "base body".
Definition ex_org_A : string := "# A" ++ nl ++ "org body".
Definition ex_proj_A : string := "# A" ++ nl ++ "new content".
Definition ex_dev_A : string := "# A" ++ nl ++ "my prefs".
Definition ex_lang_Z : string := "# Z" ++ nl ++ "zeta".
Definition ex_lang_A : string := "# A" ++ nl ++ "alpha".

Definition ex_split_table : list (string * list string) :=
  [ (ex_base_A, [EmptyString; "#"; "A"; nl ++ "base body"]);
    (ex_org_A, [EmptyString; "#"; "A"; nl ++ "org body"]);
    (ex_proj_A, [EmptyString; "#"; "A"; nl ++ "new content"]);
    (ex_dev_A, [EmptyString; "#"; "A"; nl ++ "my prefs"]);
    (ex_lang_Z, [EmptyString; "#"; "Z"; nl ++ "zeta"]);
    (ex_lang_A, [EmptyString; "#"; "A"; nl ++ "alpha"]) ].

Definition ex_md5_table : list (string * string) :=
  [ ("base body", "243d842f9421c33e828f2dc72dce8f32");
    ("org body", "0343eef94b8de92614444ed1db1e2656");
    ("new content", "96c15c2bb2921193bf290df8cd85e2ba");
    ("my prefs", "27a559485cc06e71225098b10bc8ce82");
    ("zeta", "e26026b73cdc3b59012c318ba26b5518");
    ("alpha", "2c1743a391305fbf367df8e4f069f9f9") ].

Definition ascii_is_space (c : ascii) : bool :=
  let n := nat_of_ascii c in
  Nat.eqb n 32 || (Nat.leb 9 n && Nat.leb n 13) || (Nat.leb 28 n && Nat.leb n 31).

Fixpoint ascii_lstrip (s : string) : string :=
  match s with
  | String c s' => if ascii_is_space c then ascii_lstrip s' else s
  | EmptyString => EmptyString
  end.

Definition str_rev (s : string) : string :=
  string_of_list_ascii (List.rev (list_ascii_of_string s)).

Definition ascii_strip (s : string) : string :=
  str_rev (ascii_lstrip (str_rev (ascii_lstrip s))).

Definition ascii_lower_char (c : ascii) : ascii :=
  let n := nat_of_ascii c in
  if Nat.leb 65 n && Nat.leb n 90 then ascii_of_nat (n + 32) else c.

Fixpoint ascii_lower (s : string) : string :=
  match s with
  | String c s' => String (ascii_lower_char c) (ascii_lower s')
  | EmptyString => EmptyString
  end.

Definition ex_lib : PyLib :=
  {| re_split_headers := fun text =>
       match assoc_get text ex_split_table with
       | Some parts => parts
       | None => [text]
       end;
     str_strip := ascii_strip;
     str_lower := ascii_lower;
     md5_hexdigest := fun s =>
       match assoc_get s ex_md5_table with
       | Some h => h
       | None => s
       end |}.

Definition ex_cfg : Config :=
  {| cfg_company := Some {| roles := None |};
     cfg_project := Some {| developer_overrides_enabled := true;
                            primary_role := None |} |}.

Definition ex_amb : Ambient :=
  {| now_generate := "2024-01-01 00:00:00";
     now_report := "2024-01-01 00:00:00";
     CLAUDE_DEBUG := false |}.

Definition ex_amb_later : Ambient :=
  {| now_generate := "2024-01-01 00:00:01";
     now_report := "2024-01-01 00:00:01";
     CLAUDE_DEBUG := false |}.

(** A section as the organization tier would hold it when marked
    non-overridable, and the incoming sections of the later tiers. *)
Definition ex_locked_A : MdSection :=
  mkSection "A" "org body" 1 company "0343eef94b8de92614444ed1db1e2656" false [].

Definition ex_universal_A : MdSection :=
  mkSection "A" "base body" 1 universal "243d842f9421c33e828f2dc72dce8f32" true [].

Definition ex_project_A : MdSection :=
  mkSection "A" "new content" 1 project "96c15c2bb2921193bf290df8cd85e2ba" true [].

Definition ex_developer_A : MdSection :=
  mkSection "A" "my prefs" 1 developer "27a559485cc06e71225098b10bc8ce82" true [].

(** Sections that repeat the content of the entry they target, at a later
    tier. *)
Definition ex_company_same_A : MdSection :=
  mkSection "A" "base body" 1 company "243d842f9421c33e828f2dc72dce8f32" true [].

Definition ex_project_same_A : MdSection :=
  mkSection "A" "base body" 1 project "243d842f9421c33e828f2dc72dce8f32" true [].

Definition ex_developer_same_A : MdSection :=
  mkSection "A" "new content" 1 developer "96c15c2bb2921193bf290df8cd85e2ba" true [].

(** Non-overridable sections outside the organization tier. *)
Definition ex_locked_universal_A : MdSection :=
  mkSection "A" "base body" 1 universal "243d842f9421c33e828f2dc72dce8f32" false [].

Definition ex_locked_project_A : MdSection :=
  mkSection "A" "new content" 1 project "96c15c2bb2921193bf290df8cd85e2ba" false [].

(** Two sections keyed by their titles. *)
Definition ex_plain_A : MdSection :=
  mkSection "A" "alpha" 1 universal "2c1743a391305fbf367df8e4f069f9f9" true [].

Definition ex_plain_B : MdSection :=
  mkSection "B" "zeta" 1 universal "e26026b73cdc3b59012c318ba26b5518" true [].

(** A mapping with a section the role filter removes, and configurations
    whose default role excludes a keyword, or the empty string. *)
Definition ex_experimental : MdSection :=
  mkSection "Experimental Features" "try" 2 universal
            "080f651e3fcca17df3a47c2cecfcb880" true [].

Definition ex_with_experimental : Dict :=
  [("A", ex_universal_A); ("Experimental Features", ex_experimental)].

Definition ex_cfg_roles : Config :=
  {| cfg_company :=
       Some {| roles := Some [("fullstack",
                               {| exclude_sections := ["experimental"] |})] |};
     cfg_project := None |}.

Definition ex_cfg_empty_keyword : Config :=
  {| cfg_company :=
       Some {| roles := Some [("fullstack",
                               {| exclude_sections := [EmptyString] |})] |};
     cfg_project := None |}.

(** A document of two lines and one of fifty-two. *)
Definition ex_short_text : string := "one" ++ nl ++ "two".
Definition ex_long_text : string := str_repeat nl 51.

Definition ex_no_changes : Changes :=
  {| added := []; removed := []; modified := []; conflicts := [];
     policy_violations := [] |}.

(** The project tree used by the examples: every tier supplies a section
    titled [A]. *)
Definition ex_project_dir : ProjectDir :=
  {| overrides_md := Some ex_proj_A;
     developer_md := fun u => if String.eqb u "dana" then Some ex_dev_A else None;
     dry_run_report_txt := None;
     CLAUDE_md_preview := None |}.

Definition ex_fs : FileSystem :=
  {| core_md := Some ex_base_A;
     languages_dir := None;
     claude_company := Some {| standards_md := Some ex_org_A |};
     claude_project := Some ex_project_dir;
     CLAUDE_md := None;
     CLAUDE_md_backup := None |}.

(** No universal material at all, and no other tier either. *)
Definition ex_fs_empty : FileSystem :=
  {| core_md := None; languages_dir := None;
     claude_company := None; claude_project := None;
     CLAUDE_md := None; CLAUDE_md_backup := None |}.

(** Two language templates, listed as [a.md] then [b.md]. *)
Definition ex_fs_languages : FileSystem :=
  {| core_md := None;
     languages_dir := Some [("a", ex_lang_Z); ("b", ex_lang_A)];
     claude_company := None; claude_project := None;
     CLAUDE_md := None; CLAUDE_md_backup := None |}.

(** ** Properties *)

Section Properties.

Context {lib : PyLib}.

(** *** Dictionaries *)

Lemma dict_get_set_same k v d : dict_get k (dict_set k v d) = Some v.
Proof.
  induction d as [|[k' v'] d IH]; simpl.
  - now rewrite String.eqb_refl.
  - destruct (String.eqb k k') eqn:E; simpl.
    + now rewrite String.eqb_refl.
    + now rewrite E.
Qed.

Lemma dict_get_set_other k k' v d :
  k' <> k -> dict_get k' (dict_set k v d) = dict_get k' d.
Proof.
  intros Hne. induction d as [|[k0 v0] d IH]; simpl.
  - apply String.eqb_neq in Hne. now rewrite Hne.
  - destruct (String.eqb k k0) eqn:E; simpl.
    + apply String.eqb_eq in E. subst k0.
      apply String.eqb_neq in Hne. now rewrite Hne.
    + destruct (String.eqb k' k0); auto.
Qed.

Lemma dict_get_set k k' v d :
  dict_get k' (dict_set k v d) =
  if String.eqb k' k then Some v else dict_get k' d.
Proof.
  destruct (String.eqb k' k) eqn:E.
  - apply String.eqb_eq in E. subst. apply dict_get_set_same.
  - apply String.eqb_neq in E. now apply dict_get_set_other.
Qed.

Lemma dict_keys_set k v d :
  forall x, In x (dict_keys (dict_set k v d)) <-> x = k \/ In x (dict_keys d).
Proof.
  unfold dict_keys. induction d as [|[k0 v0] d IH]; simpl; intros x.
  - intuition.
  - destruct (String.eqb k k0) eqn:E; simpl.
    + apply String.eqb_eq in E. subst. intuition.
    + rewrite IH. intuition.
Qed.

Lemma dict_set_wf k v d : dict_wf d -> dict_wf (dict_set k v d).
Proof.
  unfold dict_wf. induction d as [|[k0 v0] d IH]; simpl; intros Hnd.
  - constructor; [intros [] | constructor].
  - inversion Hnd as [|? ? Hnin Hnd']; subst.
    destruct (String.eqb k k0) eqn:E; simpl.
    + apply String.eqb_eq in E. subst. now constructor.
    + constructor; [|now apply IH].
      intros Hin. apply (dict_keys_set k v d) in Hin.
      destruct Hin as [->|Hin]; [|now apply Hnin].
      now rewrite String.eqb_refl in E.
Qed.

Lemma dict_get_In k v d : dict_get k d = Some v -> In (k, v) d.
Proof.
  induction d as [|[k0 v0] d IH]; simpl; [discriminate|].
  destruct (String.eqb k k0) eqn:E.
  - apply String.eqb_eq in E. intros [= ->]. subst. now left.
  - intros H. right. now apply IH.
Qed.

Lemma dict_In_get k v d : dict_wf d -> In (k, v) d -> dict_get k d = Some v.
Proof.
  unfold dict_wf, dict_keys.
  induction d as [|[k0 v0] d IH]; simpl; intros Hnd Hin; [contradiction|].
  inversion Hnd as [|? ? Hnin Hnd']; subst.
  destruct Hin as [[= -> ->]|Hin].
  - now rewrite String.eqb_refl.
  - destruct (String.eqb k k0) eqn:E; [|now apply IH].
    apply String.eqb_eq in E. subst k0. exfalso. apply Hnin.
    change k with (fst (k, v)). now apply in_map.
Qed.

Lemma dict_In_mem k v d : In (k, v) d -> dict_mem k d = true.
Proof.
  unfold dict_mem. induction d as [|[k0 v0] d IH]; simpl; [contradiction|].
  intros [[= -> ->]|Hin].
  - now rewrite String.eqb_refl.
  - destruct (String.eqb k k0); auto.
Qed.

Lemma dict_filter_wf (f : string * MdSection -> bool) d :
  dict_wf d -> dict_wf (filter f d).
Proof.
  unfold dict_wf, dict_keys.
  induction d as [|kv d IH]; simpl; intros Hnd; [constructor|].
  inversion Hnd as [|? ? Hnin Hnd']; subst.
  destruct (f kv); simpl; [|now apply IH].
  constructor; [|now apply IH].
  intros Hin. apply Hnin. apply in_map_iff in Hin.
  destruct Hin as [x [Hx Hin]]. apply filter_In in Hin.
  apply in_map_iff. exists x. tauto.
Qed.

Lemma dict_filter_get (f : string * MdSection -> bool) k v d :
  dict_wf d -> dict_get k (filter f d) = Some v -> dict_get k d = Some v.
Proof.
  intros Hwf Hget. apply dict_In_get; [assumption|].
  apply dict_get_In in Hget. apply filter_In in Hget. tauto.
Qed.

Lemma fold_left_invariant {A B : Type} (step : A -> B -> A) (P : A -> Prop)
  (G : B -> Prop) (l : list B) :
  (forall a b, P a -> G b -> P (step a b)) ->
  Forall G l -> forall a, P a -> P (fold_left step l a).
Proof.
  intros Hstep HG. induction HG as [|b l Hb HG IH]; simpl; intros a Ha; auto.
Qed.

(** *** Parsed sections *)

Lemma new_Section_fields t c l src :
  title (new_Section t c l src) = t /\
  content (new_Section t c l src) = c /\
  level (new_Section t c l src) = l /\
  source (new_Section t c l src) = src /\
  override_allowed (new_Section t c l src) = true.
Proof.
  unfold new_Section, post_init. simpl. repeat split.
Qed.

Lemma parse_parts_parsed src :
  forall n parts, List.length parts <= n ->
                  Forall (parsed_as src) (parse_parts parts src).
Proof.
  induction n as [|n IH]; intros parts Hlen.
  - destruct parts; [constructor | simpl in Hlen; lia].
  - destruct parts as [|h [|t [|b rest]]]; simpl; try constructor.
    + destruct (new_Section_fields (str_strip t) (str_strip b)
                                   (String.length h) src)
        as (_ & _ & _ & Hs & Ho).
      now split.
    + apply IH. simpl in Hlen. lia.
Qed.

Lemma parse_markdown_sections_parsed text src :
  Forall (parsed_as src) (parse_markdown_sections text src).
Proof.
  unfold parse_markdown_sections.
  destruct (re_split_headers text) as [|p parts]; [constructor|].
  apply parse_parts_parsed with (n := List.length parts). lia.
Qed.

(** *** The project tier *)

Lemma project_step_rejects M s e :
  dict_get (title s) M = Some e -> locked_company e -> project_step M s = M.
Proof.
  intros Hget [Ho Hs]. unfold project_step. rewrite Hget, Ho, Hs. reflexivity.
Qed.

Lemma project_step_accepts M s :
  (forall e, dict_get (title s) M = Some e -> ~ locked_company e) ->
  project_step M s = dict_set (title s) s M.
Proof.
  intros Hfree. unfold project_step.
  destruct (dict_get (title s) M) as [e|] eqn:Hget; [|reflexivity].
  specialize (Hfree e eq_refl). unfold locked_company in Hfree.
  destruct (override_allowed e) eqn:Ho; simpl; [reflexivity|].
  destruct (source e) eqn:Hs; simpl; try reflexivity.
  exfalso. apply Hfree. now split.
Qed.

Lemma project_step_other M s k :
  title s <> k -> dict_get k (project_step M s) = dict_get k M.
Proof.
  intros Hne. unfold project_step.
  destruct (dict_get (title s) M) as [e|].
  - destruct (negb (override_allowed e) && Source_eqb (source e) company);
      [reflexivity|].
    apply dict_get_set_other. congruence.
  - apply dict_get_set_other. congruence.
Qed.

Lemma project_fold_keeps_locked k e :
  locked_company e ->
  forall l M, dict_get k M = Some e ->
              dict_get k (fold_left project_step l M) = Some e.
Proof.
  intros Hlock. induction l as [|s l IH]; simpl; intros M Hget; [assumption|].
  apply IH. destruct (String.eqb (title s) k) eqn:E.
  - apply String.eqb_eq in E. subst k.
    now rewrite (project_step_rejects M s e Hget Hlock).
  - apply String.eqb_neq in E. now rewrite project_step_other.
Qed.

(** C2.  When the accumulated mapping holds, under the identity of an
    incoming project-tier section, an organization section with
    [override_allowed = false], the project step returns the mapping
    unchanged, and after the whole project pass the entry is still the
    organization section. *)
Theorem project_rejects_locked_company :
  forall (M : Dict) (s e : MdSection),
    dict_get (title s) M = Some e ->
    override_allowed e = false ->
    source e = company ->
    project_step M s = M /\
    (forall l, dict_get (title s) (fold_left project_step l M) = Some e) /\
    (forall fs, dict_get (title s) (apply_project_customizations fs M) = Some e).
Proof.
  intros M s e Hget Ho Hs.
  assert (Hlock : locked_company e) by now split.
  split; [now apply project_step_rejects with e|].
  split.
  - intros l. now apply project_fold_keeps_locked.
  - intros fs. unfold apply_project_customizations.
    destruct (claude_project fs) as [pd|]; [|assumption].
    destruct (overrides_md pd) as [text|]; [|assumption].
    now apply project_fold_keeps_locked.
Qed.

(** *** The developer tier *)

Lemma developer_step_rejects M s e :
  dict_get (title s) M = Some e -> policy_tier e -> developer_step M s = M.
Proof.
  intros Hget Hpol. unfold developer_step. rewrite Hget.
  destruct Hpol as [-> | ->]; reflexivity.
Qed.

Lemma developer_step_accepts M s :
  (forall e, dict_get (title s) M = Some e -> ~ policy_tier e) ->
  developer_step M s = dict_set (title s) s M.
Proof.
  intros Hfree. unfold developer_step.
  destruct (dict_get (title s) M) as [e|] eqn:Hget; [|reflexivity].
  specialize (Hfree e eq_refl). unfold policy_tier in Hfree.
  destruct (source e); simpl; try reflexivity; exfalso; apply Hfree; auto.
Qed.

Lemma developer_step_other M s k :
  title s <> k -> dict_get k (developer_step M s) = dict_get k M.
Proof.
  intros Hne. unfold developer_step.
  destruct (dict_get (title s) M) as [e|].
  - destruct (Source_eqb (source e) universal || Source_eqb (source e) company);
      [reflexivity|].
    apply dict_get_set_other. congruence.
  - apply dict_get_set_other. congruence.
Qed.

Lemma developer_fold_keeps_policy k e :
  policy_tier e ->
  forall l M, dict_get k M = Some e ->
              dict_get k (fold_left developer_step l M) = Some e.
Proof.
  intros Hpol. induction l as [|s l IH]; simpl; intros M Hget; [assumption|].
  apply IH. destruct (String.eqb (title s) k) eqn:E.
  - apply String.eqb_eq in E. subst k.
    now rewrite (developer_step_rejects M s e Hget Hpol).
  - apply String.eqb_neq in E. now rewrite developer_step_other.
Qed.

Lemma developer_pass_keeps_policy cfg fs u k e M :
  policy_tier e -> dict_get k M = Some e ->
  dict_get k (apply_developer_preferences cfg fs M u) = Some e.
Proof.
  intros Hpol Hget. unfold apply_developer_preferences.
  destruct (negb (config_developer_enabled cfg)); [assumption|].
  destruct (claude_project fs) as [pd|]; [|assumption].
  destruct (developer_md pd u) as [text|]; [|assumption].
  now apply developer_fold_keeps_policy.
Qed.

(** C5.  An individual-tier section whose identity is held in the accumulated
    mapping by a universal or an organization section is rejected: the step
    returns the mapping unchanged and the entry survives the whole developer
    pass, whatever [override_allowed] says.  An entry that the step does
    replace was at project or individual tier. *)
Theorem developer_rejects_policy_tiers :
  forall (M : Dict) (s e : MdSection),
    dict_get (title s) M = Some e ->
    (source e = universal \/ source e = company ->
       developer_step M s = M /\
       forall cfg fs u,
         dict_get (title s) (apply_developer_preferences cfg fs M u) = Some e) /\
    (dict_get (title s) (developer_step M s) <> Some e ->
       source e = project \/ source e = developer).
Proof.
  intros M s e Hget. split.
  - intros Hpol. split.
    + now apply developer_step_rejects with e.
    + intros cfg fs u. now apply developer_pass_keeps_policy.
  - intros Hchg. destruct (source e) eqn:Hs; auto; exfalso; apply Hchg.
    + rewrite (developer_step_rejects M s e Hget); [assumption|]. now left.
    + rewrite (developer_step_rejects M s e Hget); [assumption|]. now right.
Qed.

(** *** The organization tier *)

Lemma company_step_set M s : company_step M s = dict_set (title s) s M.
Proof. unfold company_step. now destruct (dict_mem (title s) M). Qed.

(** C9.  A section whose content equals that of the entry it targets still
    replaces the entry, at every tier whose permission rule lets it through:
    always at the organization tier, at the project tier unless the entry is
    a non-overridable organization section, at the individual tier when the
    entry is at project or individual tier.  The new entry is the incoming
    section, with its own tier, checksum and [override_allowed]. *)
Theorem same_content_still_replaces :
  forall (M : Dict) (s e : MdSection),
    dict_get (title s) M = Some e ->
    content s = content e ->
    dict_get (title s) (company_step M s) = Some s /\
    (~ (override_allowed e = false /\ source e = company) ->
       dict_get (title s) (project_step M s) = Some s) /\
    (source e = project \/ source e = developer ->
       dict_get (title s) (developer_step M s) = Some s).
Proof.
  intros M s e Hget _. split; [|split].
  - rewrite company_step_set. apply dict_get_set_same.
  - intros Hfree. rewrite project_step_accepts; [apply dict_get_set_same|].
    intros e' He'. rewrite Hget in He'. injection He' as <-. exact Hfree.
  - intros Hsrc. rewrite developer_step_accepts; [apply dict_get_set_same|].
    intros e' He'. rewrite Hget in He'. injection He' as <-.
    unfold policy_tier. destruct Hsrc as [Hs|Hs]; rewrite Hs; intros []; discriminate.
Qed.

(** C10.  [override_allowed] is consulted by the project step alone, and
    there only against organization sections.  The organization step installs
    every incoming section; the project step replaces a non-overridable entry
    of any other tier; the developer step decides on the entry's tier alone,
    so a non-overridable project or individual entry is replaced and an
    overridable universal or organization entry is kept. *)
Theorem override_flag_only_guards_company_from_project :
  forall (M : Dict) (s : MdSection),
    dict_get (title s) (company_step M s) = Some s /\
    (forall e, dict_get (title s) M = Some e ->
       override_allowed e = false -> source e <> company ->
       dict_get (title s) (project_step M s) = Some s) /\
    (forall e, dict_get (title s) M = Some e ->
       dict_get (title s) (project_step M s) <> Some s ->
       override_allowed e = false /\ source e = company) /\
    (forall e, dict_get (title s) M = Some e ->
       developer_step M s =
       match source e with
       | universal | company => M
       | project | developer => dict_set (title s) s M
       end).
Proof.
  intros M s. split; [|split; [|split]].
  - rewrite company_step_set. apply dict_get_set_same.
  - intros e Hget Ho Hs. rewrite project_step_accepts; [apply dict_get_set_same|].
    intros e' He' [_ Hc]. rewrite Hget in He'. injection He' as <-. contradiction.
  - intros e Hget Hkept. unfold project_step in Hkept. rewrite Hget in Hkept.
    destruct (override_allowed e), (source e); simpl in Hkept;
      try (now rewrite dict_get_set_same in Hkept); now split.
  - intros e Hget. unfold developer_step. rewrite Hget.
    now destruct (source e).
Qed.

(** *** What the change analysis reports *)

Lemma Source_eqb_eq a b : Source_eqb a b = true <-> a = b.
Proof. destruct a, b; simpl; split; intros H; congruence. Qed.

Lemma flat_map_nil {A B : Type} (f : A -> list B) (l : list A) :
  (forall x, In x l -> f x = []) -> flat_map f l = [].
Proof.
  induction l as [|x l IH]; simpl; intros H; [reflexivity|].
  rewrite (H x (or_introl eq_refl)). apply IH. intros y Hy. apply H. now right.
Qed.

Lemma violation_of_nil before k v :
  (forall o, dict_get k before = Some o -> source v = project ->
             locked_company o -> False) ->
  violation_of before (k, v) = [].
Proof.
  intros H. unfold violation_of. simpl.
  destruct (Source_eqb (source v) project) eqn:Ev; [|reflexivity].
  destruct (dict_get k before) as [o|]; [|reflexivity].
  destruct (Source_eqb (source o) company) eqn:Eo; [|reflexivity].
  destruct (override_allowed o) eqn:Ea; [reflexivity|]. simpl.
  exfalso. apply (H o eq_refl).
  - now apply Source_eqb_eq.
  - split; [assumption | now apply Source_eqb_eq].
Qed.

Lemma project_step_cases M s :
  project_step M s = M \/
  (project_step M s = dict_set (title s) s M /\
   forall e, dict_get (title s) M = Some e -> ~ locked_company e).
Proof.
  unfold project_step.
  destruct (dict_get (title s) M) as [e|] eqn:Hget.
  - destruct (override_allowed e) eqn:Ho; simpl.
    + right. split; [reflexivity|]. intros e' [= <-] [Hf _]. congruence.
    + destruct (source e) eqn:Hs; simpl; auto; right; split; try reflexivity;
        intros e' [= <-] [_ Hc]; congruence.
  - right. split; [reflexivity|]. intros e' [=].
Qed.

Lemma project_step_wf M s : dict_wf M -> dict_wf (project_step M s).
Proof.
  intros Hwf. destruct (project_step_cases M s) as [-> | [-> _]];
    [assumption | now apply dict_set_wf].
Qed.

Lemma project_fold_trace M :
  dict_wf M -> forall l, project_trace M (fold_left project_step l M).
Proof.
  intros Hwf l.
  apply fold_left_invariant with (G := fun _ : MdSection => True).
  - intros after s [Hwf' Htr] _. split; [now apply project_step_wf|].
    intros k. destruct (project_step_cases after s) as [-> | [-> Hfree]];
      [apply Htr|].
    destruct (String.eqb k (title s)) eqn:E.
    + apply String.eqb_eq in E. subst k. right. intros o Ho.
      destruct (Htr (title s)) as [Heq | Hold]; [|now apply Hold].
      apply Hfree. now rewrite Heq.
    + apply String.eqb_neq in E. rewrite dict_get_set_other by assumption.
      apply Htr.
  - apply Forall_forall. trivial.
  - split; [assumption|]. intros k. now left.
Qed.

(** The analysis run on a mapping and on the result of its project pass
    reports no violation, whichever sections the project tier supplied. *)
Lemma project_pass_reports_nothing cfg M l :
  dict_wf M ->
  policy_violations (analyze_changes cfg M (fold_left project_step l M)) = [].
Proof.
  intros Hwf. simpl. destruct (cfg_company cfg); [|reflexivity].
  destruct (project_fold_trace M Hwf l) as [Hwf' Htr].
  apply flat_map_nil. intros [k v] Hin. apply violation_of_nil.
  intros o Ho Hv Hlock.
  destruct (Htr k) as [Heq | Hfree]; [|now apply (Hfree o)].
  rewrite (dict_In_get k v _ Hwf' Hin), Ho in Heq. injection Heq as ->.
  destruct Hlock as [_ Hc]. congruence.
Qed.

(** *** Invariants of the loaded and resolved mappings *)

Lemma dict_inv_nil Q : dict_inv Q [].
Proof. split; [constructor | intros k v [=]]. Qed.

Lemma dict_inv_set Q k v d : Q v -> dict_inv Q d -> dict_inv Q (dict_set k v d).
Proof.
  intros Hv [Hwf Hall]. split; [now apply dict_set_wf|].
  intros k' v'. rewrite dict_get_set.
  destruct (String.eqb k' k); [intros [= <-]; assumption | apply Hall].
Qed.

Lemma dict_inv_filter Q (f : string * MdSection -> bool) d :
  dict_inv Q d -> dict_inv Q (filter f d).
Proof.
  intros [Hwf Hall]. split; [now apply dict_filter_wf|].
  intros k v Hget. apply (Hall k). now apply dict_filter_get with f.
Qed.

Lemma dict_inv_weaken (Q Q' : MdSection -> Prop) d :
  (forall v, Q v -> Q' v) -> dict_inv Q d -> dict_inv Q' d.
Proof.
  intros HQ [Hwf Hall]. split; [assumption|].
  intros k v Hget. apply HQ. now apply (Hall k).
Qed.

Lemma load_universal_base_inv fs :
  dict_inv (parsed_as universal) (load_universal_base fs).
Proof.
  unfold load_universal_base.
  assert (Hcore : dict_inv (parsed_as universal)
            match core_md fs with
            | Some text =>
                fold_left core_step (parse_markdown_sections text universal) []
            | None => []
            end).
  { destruct (core_md fs) as [text|]; [|apply dict_inv_nil].
    apply fold_left_invariant with (G := parsed_as universal).
    - intros d s Hd Hs. now apply dict_inv_set.
    - apply parse_markdown_sections_parsed.
    - apply dict_inv_nil. }
  destruct (languages_dir fs) as [files|]; [|assumption].
  apply fold_left_invariant with (G := fun _ : string * string => True).
  - intros d [stem text] Hd _. unfold language_file_step. simpl.
    apply fold_left_invariant with (G := parsed_as universal).
    + intros d' s Hd' [Hs Ho]. unfold language_step.
      apply dict_inv_set; [|assumption]. now split.
    + apply parse_markdown_sections_parsed.
    + assumption.
  - apply Forall_forall. trivial.
  - assumption.
Qed.

Lemma developer_step_inv Q d s :
  Q s -> dict_inv Q d -> dict_inv Q (developer_step d s).
Proof.
  intros Hs Hd. unfold developer_step.
  destruct (dict_get (title s) d) as [e|]; [|now apply dict_inv_set].
  destruct (Source_eqb (source e) universal || Source_eqb (source e) company);
    [assumption | now apply dict_inv_set].
Qed.

Lemma project_step_inv Q d s :
  Q s -> dict_inv Q d -> dict_inv Q (project_step d s).
Proof.
  intros Hs Hd.
  destruct (project_step_cases d s) as [-> | [-> _]];
    [assumption | now apply dict_inv_set].
Qed.

Lemma parsed_overridable src s : parsed_as src s -> overridable s.
Proof. now intros [_ H]. Qed.

Lemma Forall_parsed_overridable text src :
  Forall overridable (parse_markdown_sections text src).
Proof.
  eapply Forall_impl; [|apply parse_markdown_sections_parsed].
  apply parsed_overridable.
Qed.

Lemma apply_company_overrides_inv cfg fs d :
  dict_inv overridable d -> dict_inv overridable (apply_company_overrides cfg fs d).
Proof.
  intros Hd. unfold apply_company_overrides.
  destruct (claude_company fs) as [cd|]; [|assumption].
  assert (Hfold : dict_inv overridable
            match standards_md cd with
            | Some text =>
                fold_left company_step (parse_markdown_sections text company) d
            | None => d
            end).
  { destruct (standards_md cd) as [text|]; [|assumption].
    apply fold_left_invariant with (G := overridable).
    - intros d' s Hd' Hs. rewrite company_step_set. now apply dict_inv_set.
    - apply Forall_parsed_overridable.
    - assumption. }
  destruct (config_has_roles cfg); [|assumption].
  unfold _apply_role_filters.
  destruct (config_role_config cfg (config_primary_role cfg));
    [now apply dict_inv_filter | assumption].
Qed.

Lemma apply_project_customizations_inv fs d :
  dict_inv overridable d -> dict_inv overridable (apply_project_customizations fs d).
Proof.
  intros Hd. unfold apply_project_customizations.
  destruct (claude_project fs) as [pd|]; [|assumption].
  destruct (overrides_md pd) as [text|]; [|assumption].
  apply fold_left_invariant with (G := overridable).
  - intros d' s Hd' Hs. now apply project_step_inv.
  - apply Forall_parsed_overridable.
  - assumption.
Qed.

Lemma apply_developer_preferences_inv cfg fs d u :
  dict_inv overridable d ->
  dict_inv overridable (apply_developer_preferences cfg fs d u).
Proof.
  intros Hd. unfold apply_developer_preferences.
  destruct (negb (config_developer_enabled cfg)); [assumption|].
  destruct (claude_project fs) as [pd|]; [|assumption].
  destruct (developer_md pd u) as [text|]; [|assumption].
  apply fold_left_invariant with (G := overridable).
  - intros d' s Hd' Hs. now apply developer_step_inv.
  - apply Forall_parsed_overridable.
  - assumption.
Qed.

Lemma merge_sections_inv cfg fs username :
  dict_inv (parsed_as universal) (fst (merge_sections cfg fs username)) /\
  dict_inv overridable (snd (merge_sections cfg fs username)).
Proof.
  unfold merge_sections. simpl. split; [apply load_universal_base_inv|].
  assert (H : dict_inv overridable
            (apply_project_customizations fs
               (apply_company_overrides cfg fs (load_universal_base fs)))).
  { apply apply_project_customizations_inv, apply_company_overrides_inv.
    apply dict_inv_weaken with (Q := parsed_as universal);
      [apply parsed_overridable | apply load_universal_base_inv]. }
  destruct (username_given username);
    [now apply apply_developer_preferences_inv | assumption].
Qed.

(** Against a baseline that holds universal sections only, the analysis
    reports no violation. *)
Lemma universal_baseline_reports_nothing cfg before after :
  dict_all (parsed_as universal) before ->
  policy_violations (analyze_changes cfg before after) = [].
Proof.
  intros Hall. simpl. destruct (cfg_company cfg); [|reflexivity].
  apply flat_map_nil. intros [k v] _. apply violation_of_nil.
  intros o Ho _ [_ Hc]. destruct (Hall k o Ho) as [Hu _]. congruence.
Qed.

Lemma merge_reports_nothing cfg fs username :
  policy_violations
    (analyze_changes cfg (fst (merge_sections cfg fs username))
                         (snd (merge_sections cfg fs username))) = [].
Proof.
  apply universal_baseline_reports_nothing.
  apply (merge_sections_inv cfg fs username).
Qed.

(** *** The output stage of [merge] *)

Lemma merge_unfold cfg amb fs username dry_run :
  merge cfg amb fs username dry_run =
  merge_output cfg amb dry_run
    (fst (merge_sections cfg fs username))
    (snd (merge_sections cfg fs username))
    (generate_claude_md amb (snd (merge_sections cfg fs username))) fs.
Proof.
  unfold merge. now destruct (merge_sections cfg fs username).
Qed.

Lemma merge_output_dry_run_destination cfg amb orig secs text fs :
  CLAUDE_md (snd (merge_output cfg amb true orig secs text fs)) = CLAUDE_md fs /\
  CLAUDE_md_backup (snd (merge_output cfg amb true orig secs text fs))
    = CLAUDE_md_backup fs.
Proof. split; reflexivity. Qed.

(** C3.  A dry run leaves the destination [CLAUDE.md] (and its backup) as
    they were, for the whole of [merge] and for its output stage on any pair
    of mappings, whether or not violations are reported.  With
    [dry_run = False], when the analysis reports a violation, the output
    stage raises [ValueError] and the file system is unchanged. *)
Theorem merge_never_writes_on_dry_run_or_violation :
  forall (cfg : Config) (amb : Ambient),
    (forall fs username,
        CLAUDE_md (snd (merge cfg amb fs username true)) = CLAUDE_md fs /\
        CLAUDE_md_backup (snd (merge cfg amb fs username true))
          = CLAUDE_md_backup fs) /\
    (forall orig secs text fs,
        CLAUDE_md (snd (merge_output cfg amb true orig secs text fs))
          = CLAUDE_md fs /\
        CLAUDE_md_backup (snd (merge_output cfg amb true orig secs text fs))
          = CLAUDE_md_backup fs) /\
    (forall orig secs text fs,
        policy_violations (analyze_changes cfg orig secs) <> [] ->
        exists msg,
          merge_output cfg amb false orig secs text fs
            = (Raised_ValueError msg, fs)).
Proof.
  intros cfg amb. split; [|split].
  - intros fs username. rewrite merge_unfold.
    apply merge_output_dry_run_destination.
  - intros orig secs text fs. apply merge_output_dry_run_destination.
  - intros orig secs text fs Hviol. unfold merge_output.
    destruct (policy_violations (analyze_changes cfg orig secs)) as [|v vs];
      [contradiction|].
    eexists. reflexivity.
Qed.

(** Through [merge] itself the baseline is the universal tier, so the
    analysis never reports a violation and the commit branch always
    writes. *)
Lemma merge_commit_writes cfg amb fs username :
  exists text fs',
    merge cfg amb fs username false = (Returned text, fs') /\
    text = generate_claude_md amb (snd (merge_sections cfg fs username)) /\
    CLAUDE_md fs' = Some text.
Proof.
  rewrite merge_unfold. unfold merge_output.
  rewrite merge_reports_nothing. do 2 eexists. repeat split.
Qed.

(** C7 (as the code has it).  When neither [base/core.md] nor
    [base/languages] exists, the universal tier is the empty mapping and
    [merge] with [dry_run = False] still returns the rendered document and
    writes it to [CLAUDE.md]: a missing universal tier is treated like any
    other missing tier. *)
Theorem missing_universal_base_is_not_fatal :
  forall (cfg : Config) (amb : Ambient) (fs : FileSystem)
         (username : option string),
    core_md fs = None ->
    languages_dir fs = None ->
    load_universal_base fs = [] /\
    exists text fs',
      merge cfg amb fs username false = (Returned text, fs') /\
      CLAUDE_md fs' = Some text.
Proof.
  intros cfg amb fs username Hcore Hlang. split.
  - unfold load_universal_base. now rewrite Hcore, Hlang.
  - destruct (merge_commit_writes cfg amb fs username)
      as (text & fs' & Hm & _ & Hw).
    now exists text, fs'.
Qed.

(** *** Running [merge] again *)

Lemma apply_project_customizations_overrides fs d :
  apply_project_customizations fs d =
  match project_overrides fs with
  | Some text =>
      fold_left project_step (parse_markdown_sections text project) d
  | None => d
  end.
Proof.
  unfold apply_project_customizations, project_overrides.
  now destruct (claude_project fs).
Qed.

Lemma apply_developer_preferences_developer cfg fs d u :
  apply_developer_preferences cfg fs d u =
  if negb (config_developer_enabled cfg) then d
  else match project_developer fs u with
       | Some text =>
           fold_left developer_step (parse_markdown_sections text developer) d
       | None => d
       end.
Proof.
  unfold apply_developer_preferences, project_developer.
  now destruct (claude_project fs).
Qed.

Lemma merge_sections_same_inputs cfg fs fs' username :
  same_tier_inputs fs fs' ->
  merge_sections cfg fs' username = merge_sections cfg fs username.
Proof.
  intros (Hc & Hl & Hco & Ho & Hd). unfold merge_sections.
  assert (Hu : load_universal_base fs' = load_universal_base fs).
  { unfold load_universal_base. now rewrite Hc, Hl. }
  rewrite Hu. f_equal.
  assert (Hcomp : forall d, apply_company_overrides cfg fs' d
                            = apply_company_overrides cfg fs d).
  { intros d. unfold apply_company_overrides. now rewrite Hco. }
  rewrite Hcomp, !apply_project_customizations_overrides, Ho.
  destruct (username_given username) as [u|]; [|reflexivity].
  now rewrite !apply_developer_preferences_developer, Hd.
Qed.

Lemma merge_keeps_tier_inputs cfg amb fs username dry_run :
  same_tier_inputs fs (snd (merge cfg amb fs username dry_run)).
Proof.
  rewrite merge_unfold. unfold merge_output, same_tier_inputs.
  destruct dry_run.
  - simpl. unfold project_overrides, project_developer. simpl.
    destruct (claude_project fs); repeat split.
  - destruct (policy_violations _); simpl; repeat split.
Qed.

Lemma analyze_changes_same cfg M :
  dict_wf M ->
  added (analyze_changes cfg M M) = [] /\
  removed (analyze_changes cfg M M) = [] /\
  modified (analyze_changes cfg M M) = [].
Proof.
  intros Hwf. simpl. repeat split; apply flat_map_nil; intros [k v] Hin.
  - unfold added_of. simpl. now rewrite (dict_In_mem k v M Hin).
  - unfold removed_of. simpl. now rewrite (dict_In_mem k v M Hin).
  - unfold modified_of. simpl. rewrite (dict_In_get k v M Hwf Hin).
    now rewrite String.eqb_refl.
Qed.

Lemma str_append_nil_r s : s ++ EmptyString = s.
Proof. induction s as [|c s IH]; simpl; [reflexivity | now rewrite IH]. Qed.

Lemma str_append_assoc s1 s2 s3 : (s1 ++ s2) ++ s3 = s1 ++ s2 ++ s3.
Proof. induction s1 as [|c s1 IH]; simpl; [reflexivity | now rewrite IH]. Qed.

Lemma str_append_cancel_l p a b : p ++ a = p ++ b -> a = b.
Proof.
  induction p as [|c p IH]; simpl; intros H; [exact H|].
  injection H as H. now apply IH.
Qed.

Lemma str_append_same_length s1 : forall s2 t1 t2,
  String.length s1 = String.length s2 ->
  s1 ++ t1 = s2 ++ t2 -> s1 = s2.
Proof.
  induction s1 as [|c s1 IH]; intros [|d s2] t1 t2 Hlen H;
    simpl in Hlen; try discriminate; [reflexivity|].
  simpl in H. injection H as Hc H. subst d. f_equal.
  apply (IH s2 t1 t2); [now injection Hlen | exact H].
Qed.

(** The document starts with the header line, which ends in the clock
    reading. *)
Lemma generate_claude_md_header amb M :
  exists rest,
    generate_claude_md amb M
    = "# CLAUDE.md - Generated " ++ now_generate amb ++ nl ++ rest.
Proof.
  unfold generate_claude_md, generate_claude_md_lines.
  eexists. cbn [app String.concat]. rewrite str_append_assoc. reflexivity.
Qed.

Lemma same_document_same_clock amb1 amb2 M1 M2 :
  String.length (now_generate amb1) = String.length (now_generate amb2) ->
  generate_claude_md amb2 M2 = generate_claude_md amb1 M1 ->
  now_generate amb1 = now_generate amb2.
Proof.
  intros Hlen Hdoc.
  destruct (generate_claude_md_header amb1 M1) as [r1 H1].
  destruct (generate_claude_md_header amb2 M2) as [r2 H2].
  rewrite H1, H2 in Hdoc. apply str_append_cancel_l in Hdoc.
  symmetry in Hdoc. now apply str_append_same_length in Hdoc.
Qed.

(** C4 (as the code has it).  A second run of [merge], on the file system
    the first run left behind, resolves the same baseline and the same
    mapping, and the analysis of the two resolved mappings has empty [added],
    [removed] and [modified].  The two documents are equal if the clock
    reading and the debug flag are; with the same debug flag they agree on
    every line after the first; and, the first line carrying the generation
    time, two runs whose clock readings (of the same length, as [strftime]
    gives) differ never render the same document. *)
Theorem merge_twice_same_mapping :
  forall (cfg : Config) (fs : FileSystem) (username : option string)
         (amb1 amb2 : Ambient) (dry_run1 : bool),
    let fs1 := snd (merge cfg amb1 fs username dry_run1) in
    let M1 := snd (merge_sections cfg fs username) in
    let M2 := snd (merge_sections cfg fs1 username) in
    merge_sections cfg fs1 username = merge_sections cfg fs username /\
    added (analyze_changes cfg M1 M2) = [] /\
    removed (analyze_changes cfg M1 M2) = [] /\
    modified (analyze_changes cfg M1 M2) = [] /\
    (now_generate amb1 = now_generate amb2 ->
     CLAUDE_DEBUG amb1 = CLAUDE_DEBUG amb2 ->
     generate_claude_md amb2 M2 = generate_claude_md amb1 M1) /\
    (CLAUDE_DEBUG amb1 = CLAUDE_DEBUG amb2 ->
     tl (generate_claude_md_lines amb2 M2)
       = tl (generate_claude_md_lines amb1 M1)) /\
    (String.length (now_generate amb1) = String.length (now_generate amb2) ->
     now_generate amb1 <> now_generate amb2 ->
     generate_claude_md amb2 M2 <> generate_claude_md amb1 M1).
Proof.
  intros cfg fs username amb1 amb2 dry_run1 fs1 M1 M2.
  assert (Heq : merge_sections cfg fs1 username
                = merge_sections cfg fs username).
  { apply merge_sections_same_inputs, merge_keeps_tier_inputs. }
  assert (HM : M2 = M1) by (unfold M1, M2; now rewrite Heq).
  split; [exact Heq|]. rewrite HM.
  destruct (analyze_changes_same cfg M1) as (Ha & Hr & Hm).
  { apply (merge_sections_inv cfg fs username). }
  split; [exact Ha|]. split; [exact Hr|]. split; [exact Hm|].
  split; [|split].
  - intros Hnow Hdbg. unfold generate_claude_md, generate_claude_md_lines.
    now rewrite Hnow, Hdbg.
  - intros Hdbg. unfold generate_claude_md_lines. simpl. now rewrite Hdbg.
  - intros Hlen Hne Hdoc. apply Hne.
    now apply (same_document_same_clock amb1 amb2 M1 M1).
Qed.

(** *** Precedence *)

Lemma fold_left_reach (step : Dict -> MdSection -> Dict)
  (P Q : Dict -> Prop) (G : MdSection -> Prop) (k : string) :
  (forall M s, G s -> title s <> k -> P M -> P (step M s)) ->
  (forall M s, G s -> title s = k -> P M -> Q (step M s)) ->
  (forall M s, G s -> Q M -> Q (step M s)) ->
  forall l, Forall G l -> (exists s, In s l /\ title s = k) ->
            forall M, P M -> Q (fold_left step l M).
Proof.
  intros HP HPQ HQ l HG. induction HG as [|s l Hs HG IH]; intros [x [Hin Hx]].
  - contradiction.
  - intros M HM. simpl. destruct (String.eqb (title s) k) eqn:E.
    + apply String.eqb_eq in E.
      apply fold_left_invariant with (G := G); auto.
    + apply String.eqb_neq in E. apply IH; [|auto].
      destruct Hin as [-> | Hin]; [contradiction|]. now exists x.
Qed.

Lemma project_fold_installs k l M :
  Forall (parsed_as project) l ->
  (exists s, In s l /\ title s = k) ->
  dict_inv overridable M ->
  dict_inv overridable (fold_left project_step l M) /\
  held_by (eq project) k (fold_left project_step l M).
Proof.
  intros HG Hex HM.
  apply fold_left_reach
    with (P := dict_inv overridable)
         (Q := fun M => dict_inv overridable M /\ held_by (eq project) k M)
         (G := parsed_as project) (k := k); try assumption.
  - intros M0 s [_ Ho] _ HM0. now apply project_step_inv.
  - intros M0 s [Hs Ho] Hk HM0. split; [now apply project_step_inv|].
    rewrite project_step_accepts.
    + exists s. subst k. now rewrite dict_get_set_same.
    + intros e He [Hf _]. destruct HM0 as [_ Hall].
      specialize (Hall _ _ He). unfold overridable in Hall. congruence.
  - intros M0 s [Hs Ho] [HM0 (v & Hv & Hsv)].
    split; [now apply project_step_inv|].
    destruct (String.eqb (title s) k) eqn:E.
    + apply String.eqb_eq in E. subst k. rewrite project_step_accepts.
      * exists s. now rewrite dict_get_set_same.
      * intros e He [_ Hc]. rewrite Hv in He. injection He as <-. congruence.
    + apply String.eqb_neq in E. exists v. now rewrite project_step_other.
Qed.

Lemma developer_fold_installs k l M :
  Forall (parsed_as developer) l ->
  (exists s, In s l /\ title s = k) ->
  held_by (eq project) k M ->
  held_by (eq developer) k (fold_left developer_step l M).
Proof.
  intros HG Hex (v0 & Hv0 & Hs0).
  apply fold_left_reach
    with (P := held_by (fun t => t = project \/ t = developer) k)
         (Q := held_by (eq developer) k)
         (G := parsed_as developer) (k := k); try assumption.
  - intros M0 s _ Hk (v & Hv & Hsv). exists v.
    now rewrite developer_step_other.
  - intros M0 s [Hs _] Hk (v & Hv & Hsv). subst k.
    rewrite developer_step_accepts.
    + exists s. now rewrite dict_get_set_same.
    + intros e He Hpol. rewrite Hv in He. injection He as <-.
      destruct Hpol, Hsv; congruence.
  - intros M0 s [Hs _] (v & Hv & Hsv).
    destruct (String.eqb (title s) k) eqn:E.
    + apply String.eqb_eq in E. subst k. rewrite developer_step_accepts.
      * exists s. now rewrite dict_get_set_same.
      * intros e He Hpol. rewrite Hv in He. injection He as <-.
        destruct Hpol; congruence.
    + apply String.eqb_neq in E. exists v. now rewrite developer_step_other.
  - exists v0. auto.
Qed.

(** C6.  For an identity [k] that the universal, organization, project and
    individual tiers all supply, the resolved entry comes from the individual
    tier when that tier is enabled (a user name is given and the project
    configuration enables developer overrides), and from the project tier
    otherwise.  Parsed sections always carry [override_allowed = true]. *)
Theorem resolved_tier_precedence :
  forall (cfg : Config) (fs : FileSystem) (username : option string)
         (k : string) (cd : CompanyDir),
    dict_mem k (load_universal_base fs) = true ->
    claude_company fs = Some cd ->
    supplies (standards_md cd) company k ->
    supplies (project_overrides fs) project k ->
    (forall u, username_given username = Some u ->
               config_developer_enabled cfg = true ->
               supplies (project_developer fs u) developer k ->
               held_by (eq developer) k (snd (merge_sections cfg fs username))) /\
    (username_given username = None \/ config_developer_enabled cfg = false ->
     held_by (eq project) k (snd (merge_sections cfg fs username))).
Proof.
  intros cfg fs username k cd _ _ _ (text & s & Hfile & Hin & Hk).
  assert (Hproj :
    held_by (eq project) k
      (apply_project_customizations fs
         (apply_company_overrides cfg fs (load_universal_base fs)))).
  { rewrite apply_project_customizations_overrides, Hfile.
    apply project_fold_installs.
    - apply parse_markdown_sections_parsed.
    - now exists s.
    - apply apply_company_overrides_inv.
      apply dict_inv_weaken with (Q := parsed_as universal);
        [apply parsed_overridable | apply load_universal_base_inv]. }
  unfold merge_sections. simpl. split.
  - intros u Hu Hen (text' & s' & Hfile' & Hin' & Hk'). rewrite Hu.
    rewrite apply_developer_preferences_developer, Hen, Hfile'. simpl.
    apply developer_fold_installs; try assumption.
    + apply parse_markdown_sections_parsed.
    + now exists s'.
  - intros [Hnone | Hoff].
    + now rewrite Hnone.
    + destruct (username_given username) as [u|]; [|assumption].
      rewrite apply_developer_preferences_developer, Hoff. assumption.
Qed.

(** *** Rendering order *)

Lemma string_compare_refl s : String.compare s s = Eq.
Proof.
  pose proof (String.compare_antisym s s) as H.
  destruct (String.compare s s); simpl in H; congruence.
Qed.

Lemma ascii_compare_lt_trans a b c :
  Ascii.compare a b = Lt -> Ascii.compare b c = Lt -> Ascii.compare a c = Lt.
Proof.
  unfold Ascii.compare. rewrite !BinNat.N.compare_lt_iff.
  apply BinNat.N.lt_trans.
Qed.

Lemma string_compare_le_trans :
  forall s1 s2 s3,
    String.compare s1 s2 <> Gt -> String.compare s2 s3 <> Gt ->
    String.compare s1 s3 <> Gt.
Proof.
  induction s1 as [|c1 s1 IH]; intros [|c2 s2] [|c3 s3]; simpl;
    try congruence.
  destruct (Ascii.compare c1 c2) eqn:E12; try congruence;
    destruct (Ascii.compare c2 c3) eqn:E23; try congruence; intros H12 H23.
  - apply Ascii.compare_eq_iff in E12, E23. subst.
    rewrite (proj2 (BinNat.N.compare_eq_iff _ _) eq_refl : Ascii.compare c3 c3 = Eq).
    now apply IH with s2.
  - apply Ascii.compare_eq_iff in E12. subst. now rewrite E23.
  - apply Ascii.compare_eq_iff in E23. subst. now rewrite E12.
  - now rewrite (ascii_compare_lt_trans c1 c2 c3 E12 E23).
Qed.

Lemma string_leb_trans s1 s2 s3 :
  String.leb s1 s2 = true -> String.leb s2 s3 = true -> String.leb s1 s3 = true.
Proof.
  unfold String.leb. intros H12 H23.
  pose proof (string_compare_le_trans s1 s2 s3) as H.
  destruct (String.compare s1 s2), (String.compare s2 s3),
    (String.compare s1 s3); try reflexivity; try discriminate;
    exfalso; apply H; congruence.
Qed.

Lemma string_ltb_false_leb s1 s2 :
  String.ltb s2 s1 = false <-> String.leb s1 s2 = true.
Proof.
  unfold String.ltb, String.leb. rewrite (String.compare_antisym s1 s2).
  destruct (String.compare s2 s1); simpl; split; congruence.
Qed.

Lemma key_ltb_false a b : key_ltb b a = false <-> key_le a b.
Proof.
  unfold key_ltb, key_le. rewrite orb_false_iff, andb_false_iff.
  rewrite Nat.ltb_ge, Nat.eqb_neq, string_ltb_false_leb. split.
  - intros [Hle [Hne | Hs]]; [left; lia|].
    destruct (Nat.eq_dec (level a) (level b)); [right; auto | left; lia].
  - intros [Hlt | [Heq Hs]]; (split; [lia|]); [left; lia | now right].
Qed.

Lemma key_ltb_true a b : key_ltb a b = true -> key_le a b.
Proof.
  unfold key_ltb, key_le. rewrite orb_true_iff, andb_true_iff.
  rewrite Nat.ltb_lt, Nat.eqb_eq. intros [Hlt | [Heq Hs]]; [now left|].
  right. split; [assumption|]. unfold String.ltb in Hs. unfold String.leb.
  now destruct (String.compare (title a) (title b)).
Qed.

Lemma key_le_trans a b c : key_le a b -> key_le b c -> key_le a c.
Proof.
  unfold key_le. intros [H1 | [H1 L1]] [H2 | [H2 L2]]; try (left; lia).
  right. split; [lia|]. now apply string_leb_trans with (title b).
Qed.

Lemma sorted_insert_In x l y : In y (sorted_insert x l) <-> y = x \/ In y l.
Proof.
  induction l as [|z l IH]; simpl.
  - intuition.
  - destruct (key_ltb z x); simpl; [rewrite IH|]; intuition.
Qed.

Lemma sorted_insert_sorted x l :
  StronglySorted key_le l -> StronglySorted key_le (sorted_insert x l).
Proof.
  induction 1 as [|y l Hl IH Hy]; simpl.
  - constructor; constructor.
  - destruct (key_ltb y x) eqn:E.
    + constructor; [assumption|]. apply Forall_forall. intros z Hz.
      apply sorted_insert_In in Hz. destruct Hz as [-> | Hz].
      * now apply key_ltb_true.
      * rewrite Forall_forall in Hy. now apply Hy.
    + apply key_ltb_false in E. constructor; [now constructor|].
      constructor; [assumption|]. eapply Forall_impl; [|exact Hy].
      intros z Hz. now apply key_le_trans with y.
Qed.

Lemma sorted_insert_perm x l : Permutation (x :: l) (sorted_insert x l).
Proof.
  induction l as [|y l IH]; simpl; [reflexivity|].
  destruct (key_ltb y x); [|reflexivity].
  rewrite perm_swap. now constructor.
Qed.

Lemma sorted_sections_sorted M : StronglySorted key_le (sorted_sections M).
Proof.
  unfold sorted_sections. induction (dict_values M) as [|x l IH]; simpl.
  - constructor.
  - now apply sorted_insert_sorted.
Qed.

Lemma sorted_sections_perm M : Permutation (dict_values M) (sorted_sections M).
Proof.
  unfold sorted_sections. induction (dict_values M) as [|x l IH]; simpl.
  - constructor.
  - rewrite <- sorted_insert_perm. now constructor.
Qed.

Lemma same_key_not_ltb s x y :
  same_key s x = true -> same_key s y = true -> key_ltb y x = false.
Proof.
  unfold same_key, key_ltb. rewrite !andb_true_iff, !Nat.eqb_eq, !String.eqb_eq.
  intros [Hl1 Ht1] [Hl2 Ht2]. rewrite <- Hl1, <- Hl2, <- Ht1, <- Ht2.
  rewrite Nat.ltb_irrefl, Nat.eqb_refl. simpl.
  unfold String.ltb. now rewrite string_compare_refl.
Qed.

Lemma sorted_insert_stable s x l :
  filter (same_key s) (sorted_insert x l) = filter (same_key s) (x :: l).
Proof.
  induction l as [|y l IH]; [reflexivity|].
  simpl sorted_insert. destruct (key_ltb y x) eqn:E; [|reflexivity].
  simpl in *. rewrite IH.
  destruct (same_key s x) eqn:Ex; [|reflexivity].
  destruct (same_key s y) eqn:Ey; [|reflexivity].
  rewrite (same_key_not_ltb s x y Ex Ey) in E. discriminate.
Qed.

Lemma sorted_sections_stable s M :
  filter (same_key s) (sorted_sections M) = filter (same_key s) (dict_values M).
Proof.
  unfold sorted_sections. induction (dict_values M) as [|x l IH];
    [reflexivity|].
  simpl fold_right. rewrite sorted_insert_stable. simpl. now rewrite IH.
Qed.

Lemma StronglySorted_split {A : Type} (R : A -> A -> Prop) pre x mid y post :
  StronglySorted R (pre ++ x :: mid ++ y :: post)%list -> R x y.
Proof.
  induction pre as [|p pre IH]; simpl; intros H.
  - apply StronglySorted_inv in H. destruct H as [_ H].
    rewrite Forall_forall in H. apply H. apply in_or_app. right. now left.
  - apply StronglySorted_inv in H. now apply IH.
Qed.

(** C8 (as the code has it).  The document is the four header lines followed
    by the sections in the order of [sorted_sections]: a permutation of the
    mapping's values, ordered by level and then by title, sections of equal
    level and title keeping the mapping's order.  When every section is
    keyed by its title this is the order by level and identity. *)
Theorem rendering_sorted_by_level_then_title :
  forall (amb : Ambient) (M : Dict),
    generate_claude_md amb M =
      String.concat nl
        (firstn 4 (generate_claude_md_lines amb M)
         ++ flat_map (render_section (CLAUDE_DEBUG amb)) (sorted_sections M))%list /\
    Permutation (dict_values M) (sorted_sections M) /\
    (forall pre s1 mid s2 post,
        sorted_sections M = (pre ++ s1 :: mid ++ s2 :: post)%list ->
        level s1 < level s2 \/
        (level s1 = level s2 /\ String.leb (title s1) (title s2) = true)) /\
    (forall s, filter (same_key s) (sorted_sections M)
               = filter (same_key s) (dict_values M)) /\
    ((forall k s, In (k, s) M -> k = title s) -> rendered_in_identity_order M).
Proof.
  intros amb M.
  assert (Hord : forall pre s1 mid s2 post,
             sorted_sections M = (pre ++ s1 :: mid ++ s2 :: post)%list ->
             key_le s1 s2).
  { intros pre s1 mid s2 post Heq.
    apply (StronglySorted_split key_le pre s1 mid s2 post).
    rewrite <- Heq. apply sorted_sections_sorted. }
  split; [reflexivity|].
  split; [apply sorted_sections_perm|].
  split; [exact Hord|].
  split; [intros s; apply sorted_sections_stable|].
  intros Hplain pre s1 mid s2 post k1 k2 Heq H1 H2.
  rewrite (Hplain k1 s1 H1), (Hplain k2 s2 H2). now apply (Hord pre s1 mid s2 post).
Qed.

(** *** The parser and the universal tier *)

Lemma parse_parts_length src :
  forall n parts, List.length parts <= n ->
    List.length (parse_parts parts src) = List.length parts / 3.
Proof.
  induction n as [|n IH]; intros parts Hlen.
  - destruct parts; [reflexivity | simpl in Hlen; lia].
  - destruct parts as [|h [|t [|b rest]]]; try reflexivity.
    simpl parse_parts. simpl List.length.
    rewrite IH by (simpl in Hlen; lia).
    change (S (S (S (List.length rest)))) with (1 * 3 + List.length rest).
    now rewrite Nat.div_add_l by lia.
Qed.

Lemma parse_parts_sections src :
  forall n parts, List.length parts <= n ->
    Forall (fun s => parsed_section src s /\ metadata s = [])
           (parse_parts parts src).
Proof.
  induction n as [|n IH]; intros parts Hlen.
  - destruct parts; [constructor | simpl in Hlen; lia].
  - destruct parts as [|h [|t [|b rest]]]; simpl; try constructor.
    + unfold new_Section, post_init, parsed_section. simpl. repeat split.
    + apply IH. simpl in Hlen. lia.
Qed.

Lemma parse_sections_aux text src :
  Forall (fun s => parsed_section src s /\ metadata s = [])
         (parse_markdown_sections text src).
Proof.
  unfold parse_markdown_sections.
  destruct (re_split_headers text) as [|p parts]; [constructor|].
  apply parse_parts_sections with (n := List.length parts). lia.
Qed.

(** X1.  [parse_markdown_sections] yields one section for every complete
    (hashes, title, body) triple that follows the first element of the split,
    and every section it yields carries the requested source,
    [override_allowed = True], the MD5 digest of its own content as checksum,
    and empty metadata. *)
Theorem parse_markdown_sections_shape :
  forall (text : string) (src : Source),
    List.length (parse_markdown_sections text src)
      = (List.length (re_split_headers text) - 1) / 3 /\
    Forall (fun s => parsed_section src s /\ metadata s = [])
           (parse_markdown_sections text src).
Proof.
  intros text src. unfold parse_markdown_sections.
  destruct (re_split_headers text) as [|p parts]; simpl.
  - split; [reflexivity | constructor].
  - rewrite Nat.sub_0_r. split.
    + apply parse_parts_length with (n := List.length parts). lia.
    + apply parse_parts_sections with (n := List.length parts). lia.
Qed.

Lemma parse_markdown_sections_parsed_section text src :
  Forall (parsed_section src) (parse_markdown_sections text src).
Proof.
  eapply Forall_impl; [|apply (parse_sections_aux text src)].
  now intros s [H _].
Qed.

Lemma assoc_get_meta_set k v m : assoc_get k (meta_set k v m) = Some v.
Proof.
  induction m as [|[k' v'] m IH]; simpl.
  - now rewrite String.eqb_refl.
  - destruct (String.eqb k k') eqn:E; simpl.
    + now rewrite String.eqb_refl.
    + now rewrite E.
Qed.

Lemma dict_all_keyed_set (Q : string -> MdSection -> Prop) k v d :
  Q k v -> dict_all_keyed Q d -> dict_all_keyed Q (dict_set k v d).
Proof.
  intros Hv [Hwf Hall]. split; [now apply dict_set_wf|].
  intros k' v'. rewrite dict_get_set.
  destruct (String.eqb k' k) eqn:E; [|apply Hall].
  apply String.eqb_eq in E. subst k'. now intros [= <-].
Qed.

Lemma load_universal_base_keyed fs :
  dict_all_keyed universal_entry (load_universal_base fs).
Proof.
  unfold load_universal_base.
  assert (Hnil : dict_all_keyed universal_entry []).
  { split; [constructor | intros k v [=]]. }
  assert (Hcore : dict_all_keyed universal_entry
            match core_md fs with
            | Some text =>
                fold_left core_step (parse_markdown_sections text universal) []
            | None => []
            end).
  { destruct (core_md fs) as [text|]; [|assumption].
    apply fold_left_invariant with (G := parsed_section universal).
    - intros d s Hd (Hs & _). unfold core_step.
      apply dict_all_keyed_set; [|assumption]. split; [assumption | now left].
    - apply parse_markdown_sections_parsed_section.
    - assumption. }
  destruct (languages_dir fs) as [files|]; [|assumption].
  apply fold_left_invariant with (G := fun _ : string * string => True).
  - intros d [stem text] Hd _. unfold language_file_step. simpl.
    apply fold_left_invariant with (G := parsed_section universal).
    + intros d' s Hd' (Hs & _). unfold language_step.
      apply dict_all_keyed_set; [|assumption]. split; [assumption|].
      right. exists stem. simpl. split; [reflexivity|].
      apply assoc_get_meta_set.
    + apply parse_markdown_sections_parsed_section.
    + assumption.
  - apply Forall_forall. trivial.
  - assumption.
Qed.

(** X2.  In the mapping [load_universal_base] returns, no key occurs twice
    and every section is a universal one stored either under its title (core
    template) or under [<stem>:<title>], with the language stem recorded in
    its metadata (language templates). *)
Theorem load_universal_base_keys :
  forall (fs : FileSystem),
    NoDup (dict_keys (load_universal_base fs)) /\
    forall k v, dict_get k (load_universal_base fs) = Some v ->
      source v = universal /\
      (k = title v \/
       exists stem, k = stem ++ ":" ++ title v /\
                    assoc_get "language" (metadata v) = Some stem).
Proof.
  intros fs. destruct (load_universal_base_keyed fs) as [Hwf Hall].
  split; [exact Hwf | exact Hall].
Qed.

(** *** Invariants carried through the tiers *)

Lemma load_universal_base_parsed fs :
  dict_inv (parsed_section universal) (load_universal_base fs).
Proof.
  unfold load_universal_base.
  assert (Hcore : dict_inv (parsed_section universal)
            match core_md fs with
            | Some text =>
                fold_left core_step (parse_markdown_sections text universal) []
            | None => []
            end).
  { destruct (core_md fs) as [text|]; [|apply dict_inv_nil].
    apply fold_left_invariant with (G := parsed_section universal).
    - intros d s Hd Hs. now apply dict_inv_set.
    - apply parse_markdown_sections_parsed_section.
    - apply dict_inv_nil. }
  destruct (languages_dir fs) as [files|]; [|assumption].
  apply fold_left_invariant with (G := fun _ : string * string => True).
  - intros d [stem text] Hd _. unfold language_file_step. simpl.
    apply fold_left_invariant with (G := parsed_section universal).
    + intros d' s Hd' Hs. unfold language_step.
      apply dict_inv_set; [|assumption]. exact Hs.
    + apply parse_markdown_sections_parsed_section.
    + assumption.
  - apply Forall_forall. trivial.
  - assumption.
Qed.

Lemma company_pass_inv (Q : MdSection -> Prop) cfg fs d :
  (forall s, parsed_section company s -> Q s) ->
  dict_inv Q d -> dict_inv Q (apply_company_overrides cfg fs d).
Proof.
  intros HQ Hd. unfold apply_company_overrides.
  destruct (claude_company fs) as [cd|]; [|assumption].
  assert (Hfold : dict_inv Q
            match standards_md cd with
            | Some text =>
                fold_left company_step (parse_markdown_sections text company) d
            | None => d
            end).
  { destruct (standards_md cd) as [text|]; [|assumption].
    apply fold_left_invariant with (G := parsed_section company).
    - intros d' s Hd' Hs. rewrite company_step_set. apply dict_inv_set; auto.
    - apply parse_markdown_sections_parsed_section.
    - assumption. }
  destruct (config_has_roles cfg); [|assumption].
  unfold _apply_role_filters.
  destruct (config_role_config cfg (config_primary_role cfg));
    [now apply dict_inv_filter | assumption].
Qed.

Lemma project_pass_inv (Q : MdSection -> Prop) fs d :
  (forall s, parsed_section project s -> Q s) ->
  dict_inv Q d -> dict_inv Q (apply_project_customizations fs d).
Proof.
  intros HQ Hd. unfold apply_project_customizations.
  destruct (claude_project fs) as [pd|]; [|assumption].
  destruct (overrides_md pd) as [text|]; [|assumption].
  apply fold_left_invariant with (G := parsed_section project).
  - intros d' s Hd' Hs. apply project_step_inv; auto.
  - apply parse_markdown_sections_parsed_section.
  - assumption.
Qed.

Lemma developer_pass_inv (Q : MdSection -> Prop) cfg fs d u :
  (forall s, parsed_section developer s -> Q s) ->
  dict_inv Q d -> dict_inv Q (apply_developer_preferences cfg fs d u).
Proof.
  intros HQ Hd. unfold apply_developer_preferences.
  destruct (negb (config_developer_enabled cfg)); [assumption|].
  destruct (claude_project fs) as [pd|]; [|assumption].
  destruct (developer_md pd u) as [text|]; [|assumption].
  apply fold_left_invariant with (G := parsed_section developer).
  - intros d' s Hd' Hs. apply developer_step_inv; auto.
  - apply parse_markdown_sections_parsed_section.
  - assumption.
Qed.

Lemma resolved_inv (Q : MdSection -> Prop) cfg fs username :
  (forall src s, parsed_section src s -> Q s) ->
  dict_inv Q (snd (merge_sections cfg fs username)).
Proof.
  intros HQ. unfold merge_sections. simpl.
  assert (H : dict_inv Q
            (apply_project_customizations fs
               (apply_company_overrides cfg fs (load_universal_base fs)))).
  { apply project_pass_inv; [apply HQ|].
    apply company_pass_inv; [apply HQ|].
    apply dict_inv_weaken with (Q := parsed_section universal);
      [apply HQ | apply load_universal_base_parsed]. }
  destruct (username_given username);
    [apply developer_pass_inv; [apply HQ | assumption] | assumption].
Qed.

(** *** The role filter *)

Lemma prefix_occurs e : forall s,
  String.prefix e s = true <-> exists post, s = e ++ post.
Proof.
  induction e as [|a e IH]; intros s.
  - destruct s; simpl; split; intros _; eauto.
  - destruct s as [|b s]; simpl.
    + split; [discriminate | intros [post [=]]].
    + destruct (Ascii.ascii_dec a b) as [->|Hne].
      * rewrite IH. split; intros [post H]; exists post; congruence.
      * split; [discriminate | intros [post [= H _]]; congruence].
Qed.

Lemma str_contains_nil e :
  str_contains e EmptyString = String.prefix e EmptyString.
Proof. simpl. apply orb_false_r. Qed.

Lemma str_contains_cons e c s :
  str_contains e (String c s) = String.prefix e (String c s) || str_contains e s.
Proof. reflexivity. Qed.

Lemma str_contains_occurs e s : str_contains e s = true <-> occurs_in e s.
Proof.
  unfold occurs_in. split.
  - induction s as [|c s IH].
    + rewrite str_contains_nil. intros H. apply prefix_occurs in H.
      destruct H as [post H]. exists EmptyString, post. exact H.
    + rewrite str_contains_cons, orb_true_iff. intros [H|H].
      * apply prefix_occurs in H. destruct H as [post H].
        exists EmptyString, post. exact H.
      * destruct (IH H) as (pre & post & ->). now exists (String c pre), post.
  - intros (pre & post & ->). induction pre as [|c pre IH].
    + assert (Hp : String.prefix e (e ++ post) = true)
        by (apply prefix_occurs; now exists post).
      change (EmptyString ++ e ++ post) with (e ++ post).
      destruct (e ++ post) as [|c r].
      * now rewrite str_contains_nil.
      * rewrite str_contains_cons, orb_true_iff. now left.
    + change (String c pre ++ e ++ post) with (String c (pre ++ e ++ post)).
      rewrite str_contains_cons, orb_true_iff. now right.
Qed.

Lemma excluded_spec excl s :
  excluded excl s = false <->
  forall e, In e excl -> ~ occurs_in e (str_lower (title s)).
Proof.
  unfold excluded. split.
  - intros H e He Hocc. apply str_contains_occurs in Hocc.
    assert (Ht : existsb (fun e0 => str_contains e0 (str_lower (title s))) excl
                 = true) by (apply existsb_exists; now exists e).
    congruence.
  - intros H.
    destruct (existsb (fun e => str_contains e (str_lower (title s))) excl)
      eqn:E; [|reflexivity].
    apply existsb_exists in E. destruct E as (e & He & Hc).
    apply str_contains_occurs in Hc. exfalso. now apply (H e).
Qed.

Lemma dict_get_filter (f : string * MdSection -> bool) k v d :
  dict_wf d ->
  (dict_get k (filter f d) = Some v <-> dict_get k d = Some v /\ f (k, v) = true).
Proof.
  intros Hwf. split.
  - intros H. split; [now apply dict_filter_get with f|].
    apply dict_get_In in H. apply filter_In in H. tauto.
  - intros [H Hf]. apply dict_In_get; [now apply dict_filter_wf|].
    apply filter_In. split; [now apply dict_get_In | assumption].
Qed.

(** X3.  Without a configuration for the primary role, [_apply_role_filters]
    returns the mapping as it is.  With one, the result holds exactly the
    entries whose lowercased title contains none of the role's
    [exclude_sections] keywords as a substring; it never adds or changes an
    entry. *)
Theorem role_filter_removes_exactly_matches :
  forall (cfg : Config) (M : Dict),
    (config_role_config cfg (config_primary_role cfg) = None ->
     _apply_role_filters cfg M = M) /\
    (forall rc,
        config_role_config cfg (config_primary_role cfg) = Some rc ->
        NoDup (dict_keys M) ->
        forall k v,
          dict_get k (_apply_role_filters cfg M) = Some v <->
          dict_get k M = Some v /\
          forall e, In e (exclude_sections rc) ->
                    ~ occurs_in e (str_lower (title v))).
Proof.
  intros cfg M. unfold _apply_role_filters. split.
  - intros ->. reflexivity.
  - intros rc -> Hwf k v. rewrite dict_get_filter by exact Hwf. simpl.
    rewrite negb_true_iff, excluded_spec. reflexivity.
Qed.

(** X4.  An empty string among the role's [exclude_sections] removes every
    section, since the empty string is a substring of every title. *)
Theorem role_filter_empty_keyword_removes_all :
  forall (cfg : Config) (M : Dict) (rc : RoleConfig),
    config_role_config cfg (config_primary_role cfg) = Some rc ->
    In EmptyString (exclude_sections rc) ->
    _apply_role_filters cfg M = [].
Proof.
  intros cfg M rc Hrc Hin. unfold _apply_role_filters. rewrite Hrc.
  induction M as [|[k v] M IH]; [reflexivity|]. simpl.
  assert (Hex : excluded (exclude_sections rc) v = true).
  { unfold excluded. apply existsb_exists. exists EmptyString.
    split; [assumption|]. apply str_contains_occurs.
    exists EmptyString, (str_lower (title v)). reflexivity. }
  rewrite Hex. simpl. exact IH.
Qed.

(** *** Last section wins *)

Lemma last_titled_acc k l : forall acc,
  fold_left (fun a s => if String.eqb (title s) k then Some s else a) l acc
  = match last_titled k l with
    | Some s => Some s
    | None => acc
    end.
Proof.
  unfold last_titled. induction l as [|s l IH]; intros acc; [reflexivity|].
  simpl. rewrite IH. rewrite (IH (if String.eqb (title s) k then Some s else None)).
  destruct (fold_left _ l None); [reflexivity|].
  now destruct (String.eqb (title s) k).
Qed.

Lemma core_fold_get k l : forall M,
  dict_get k (fold_left core_step l M) = overridden_by k l M.
Proof.
  unfold overridden_by. induction l as [|s l IH]; intros M; [reflexivity|].
  simpl. rewrite IH. unfold last_titled at 2. simpl.
  rewrite last_titled_acc. destruct (last_titled k l); [reflexivity|].
  unfold core_step. rewrite dict_get_set, String.eqb_sym.
  now destruct (String.eqb (title s) k).
Qed.

Lemma company_fold_core l : forall M,
  fold_left company_step l M = fold_left core_step l M.
Proof.
  induction l as [|s l IH]; intros M; [reflexivity|].
  simpl. now rewrite company_step_set, IH.
Qed.

Lemma project_fold_core l : forall M,
  Forall overridable l -> dict_all overridable M ->
  fold_left project_step l M = fold_left core_step l M.
Proof.
  induction l as [|s l IH]; intros M Hl HM; [reflexivity|].
  inversion Hl as [|? ? Hs Hl']; subst. simpl.
  assert (Hstep : project_step M s = core_step M s).
  { apply project_step_accepts. intros e He [Hf _].
    specialize (HM _ _ He). unfold overridable in HM. congruence. }
  rewrite Hstep. apply IH; [assumption|].
  intros k v. unfold core_step. rewrite dict_get_set.
  destruct (String.eqb k (title s)); [now intros [= <-] | apply HM].
Qed.

(** X5.  Where [.claude-company] exists and no roles are configured, the
    organization pass leaves at every identity the last section of
    [standards.md] with that title, and the incoming entry where the file has
    none (or is absent). *)
Theorem company_pass_last_section_wins :
  forall (cfg : Config) (fs : FileSystem) (M : Dict) (cd : CompanyDir)
         (k : string),
    claude_company fs = Some cd ->
    config_has_roles cfg = false ->
    dict_get k (apply_company_overrides cfg fs M)
      = overridden_by k (tier_sections (standards_md cd) company) M.
Proof.
  intros cfg fs M cd k Hcd Hroles. unfold apply_company_overrides.
  rewrite Hcd, Hroles. destruct (standards_md cd) as [text|]; simpl.
  - now rewrite company_fold_core, core_fold_get.
  - reflexivity.
Qed.

(** X6.  Inside [merge] the project pass never rejects: at every identity
    the mapping after the pass holds the last section of [overrides.md] with
    that title, whatever the universal and organization tiers supplied,
    because no loaded section ever has [override_allowed = False]. *)
Theorem merge_project_pass_never_rejects :
  forall (cfg : Config) (fs : FileSystem) (k : string),
    dict_get k
      (apply_project_customizations fs
         (apply_company_overrides cfg fs (load_universal_base fs)))
    = overridden_by k (tier_sections (project_overrides fs) project)
        (apply_company_overrides cfg fs (load_universal_base fs)).
Proof.
  intros cfg fs k. rewrite apply_project_customizations_overrides.
  destruct (project_overrides fs) as [text|]; simpl; [|reflexivity].
  rewrite project_fold_core; [apply core_fold_get | |].
  - apply Forall_parsed_overridable.
  - apply apply_company_overrides_inv.
    apply dict_inv_weaken with (Q := parsed_as universal);
      [apply parsed_overridable | apply load_universal_base_inv].
Qed.

(** *** New identities, key order and untouched entries *)

Lemma project_pass_introduces k l M :
  Forall (parsed_as project) l ->
  (exists s, In s l /\ title s = k) ->
  dict_get k M = None ->
  held_by (eq project) k (fold_left project_step l M).
Proof.
  intros HG Hex HM.
  assert (H : exists v, dict_get k (fold_left project_step l M) = Some v /\
                        parsed_as project v).
  { apply fold_left_reach
      with (P := fun M => dict_get k M = None)
           (Q := fun M => exists v, dict_get k M = Some v /\ parsed_as project v)
           (G := parsed_as project) (k := k); try assumption.
    - intros M0 s _ Hk HM0. now rewrite project_step_other.
    - intros M0 s Hs Hk HM0. subst k. unfold project_step. rewrite HM0.
      exists s. now rewrite dict_get_set_same.
    - intros M0 s Hs (v & Hv & Hpv).
      destruct (String.eqb (title s) k) eqn:E.
      + apply String.eqb_eq in E. subst k. rewrite project_step_accepts.
        * exists s. now rewrite dict_get_set_same.
        * intros e He [Hf _]. rewrite Hv in He. injection He as <-.
          destruct Hpv as [_ Ho]. congruence.
      + apply String.eqb_neq in E. exists v. now rewrite project_step_other. }
  destruct H as (v & Hv & Hs & _). exists v. split; [assumption | now symmetry].
Qed.

Lemma developer_pass_introduces k l M :
  Forall (parsed_as developer) l ->
  (exists s, In s l /\ title s = k) ->
  dict_get k M = None ->
  held_by (eq developer) k (fold_left developer_step l M).
Proof.
  intros HG Hex HM.
  apply fold_left_reach
    with (P := fun M => dict_get k M = None)
         (Q := held_by (eq developer) k)
         (G := parsed_as developer) (k := k); try assumption.
  - intros M0 s _ Hk HM0. now rewrite developer_step_other.
  - intros M0 s [Hs _] Hk HM0. subst k. unfold developer_step. rewrite HM0.
    exists s. now rewrite dict_get_set_same.
  - intros M0 s [Hs _] (v & Hv & Hsv).
    destruct (String.eqb (title s) k) eqn:E.
    + apply String.eqb_eq in E. subst k. rewrite developer_step_accepts.
      * exists s. now rewrite dict_get_set_same.
      * intros e He Hpol. rewrite Hv in He. injection He as <-.
        destruct Hpol; congruence.
    + apply String.eqb_neq in E. exists v. now rewrite developer_step_other.
Qed.

(** X7.  A tier may always introduce a section: an identity absent from the
    incoming mapping and supplied by [overrides.md] is held by the project
    tier after the project pass, and one supplied by the developer file is
    held by the developer tier after the developer pass when developer
    overrides are enabled. *)
Theorem absent_identity_is_introduced :
  forall (cfg : Config) (fs : FileSystem) (M : Dict) (u k : string),
    dict_get k M = None ->
    (supplies (project_overrides fs) project k ->
     held_by (eq project) k (apply_project_customizations fs M)) /\
    (config_developer_enabled cfg = true ->
     supplies (project_developer fs u) developer k ->
     held_by (eq developer) k (apply_developer_preferences cfg fs M u)).
Proof.
  intros cfg fs M u k HM. split.
  - intros (text & s & Hfile & Hin & Hk).
    rewrite apply_project_customizations_overrides, Hfile.
    apply project_pass_introduces; try assumption.
    + apply parse_markdown_sections_parsed.
    + now exists s.
  - intros Hen (text & s & Hfile & Hin & Hk).
    rewrite apply_developer_preferences_developer, Hen, Hfile. simpl.
    apply developer_pass_introduces; try assumption.
    + apply parse_markdown_sections_parsed.
    + now exists s.
Qed.

Lemma dict_keys_set_app k v d :
  dict_keys (dict_set k v d)
  = (dict_keys d ++ (if dict_mem k d then [] else [k]))%list.
Proof.
  unfold dict_keys, dict_mem. induction d as [|[k' v'] d IH]; simpl.
  - reflexivity.
  - destruct (String.eqb k k') eqn:E; simpl.
    + apply String.eqb_eq in E. subst. now rewrite app_nil_r.
    + now rewrite IH.
Qed.

Lemma keys_extend_refl d : keys_extend d d.
Proof. exists []. now rewrite app_nil_r. Qed.

Lemma keys_extend_trans d1 d2 d3 :
  keys_extend d1 d2 -> keys_extend d2 d3 -> keys_extend d1 d3.
Proof.
  intros [n1 H1] [n2 H2]. exists (n1 ++ n2)%list.
  now rewrite H2, H1, app_assoc.
Qed.

Lemma keys_extend_set k v d : keys_extend d (dict_set k v d).
Proof. eexists. apply dict_keys_set_app. Qed.

Lemma keys_extend_fold (step : Dict -> MdSection -> Dict) l :
  (forall d s, keys_extend d (step d s)) ->
  forall d, keys_extend d (fold_left step l d).
Proof.
  intros Hstep. induction l as [|s l IH]; intros d; simpl.
  - apply keys_extend_refl.
  - eapply keys_extend_trans; [apply Hstep | apply IH].
Qed.

Lemma project_step_extend d s : keys_extend d (project_step d s).
Proof.
  destruct (project_step_cases d s) as [-> | [-> _]];
    [apply keys_extend_refl | apply keys_extend_set].
Qed.

Lemma developer_step_extend d s : keys_extend d (developer_step d s).
Proof.
  unfold developer_step. destruct (dict_get (title s) d) as [e|];
    [|apply keys_extend_set].
  destruct (Source_eqb (source e) universal || Source_eqb (source e) company);
    [apply keys_extend_refl | apply keys_extend_set].
Qed.

Lemma company_step_extend d s : keys_extend d (company_step d s).
Proof. rewrite company_step_set. apply keys_extend_set. Qed.

Lemma project_pass_extend fs d :
  keys_extend d (apply_project_customizations fs d).
Proof.
  rewrite apply_project_customizations_overrides.
  destruct (project_overrides fs); [|apply keys_extend_refl].
  apply keys_extend_fold, project_step_extend.
Qed.

Lemma developer_pass_extend cfg fs d u :
  keys_extend d (apply_developer_preferences cfg fs d u).
Proof.
  rewrite apply_developer_preferences_developer.
  destruct (negb (config_developer_enabled cfg)); [apply keys_extend_refl|].
  destruct (project_developer fs u); [|apply keys_extend_refl].
  apply keys_extend_fold, developer_step_extend.
Qed.

Lemma company_pass_extend cfg fs d :
  config_has_roles cfg = false ->
  keys_extend d (apply_company_overrides cfg fs d).
Proof.
  intros Hroles. unfold apply_company_overrides. rewrite Hroles.
  destruct (claude_company fs) as [cd|]; [|apply keys_extend_refl].
  destruct (standards_md cd); [|apply keys_extend_refl].
  apply keys_extend_fold, company_step_extend.
Qed.

(** X8.  The project and developer passes (and the organization pass when no
    roles are configured) keep every key of the incoming mapping, in the same
    position: the keys of the result are the incoming keys followed by the
    newly introduced ones. *)
Theorem tier_passes_append_keys :
  forall (cfg : Config) (fs : FileSystem) (M : Dict) (u : string),
    (exists new, dict_keys (apply_project_customizations fs M)
                 = (dict_keys M ++ new)%list) /\
    (exists new, dict_keys (apply_developer_preferences cfg fs M u)
                 = (dict_keys M ++ new)%list) /\
    (config_has_roles cfg = false ->
     exists new, dict_keys (apply_company_overrides cfg fs M)
                 = (dict_keys M ++ new)%list).
Proof.
  intros cfg fs M u. split; [|split].
  - apply project_pass_extend.
  - apply developer_pass_extend.
  - apply company_pass_extend.
Qed.

Lemma last_titled_cons_none k s l :
  last_titled k (s :: l) = None -> title s <> k /\ last_titled k l = None.
Proof.
  unfold last_titled at 1. simpl. rewrite last_titled_acc.
  destruct (last_titled k l); [discriminate|].
  destruct (String.eqb (title s) k) eqn:E; [discriminate|].
  apply String.eqb_neq in E. now split.
Qed.

Lemma fold_untouched (step : Dict -> MdSection -> Dict) k :
  (forall d s, title s <> k -> dict_get k (step d s) = dict_get k d) ->
  forall l d, last_titled k l = None ->
              dict_get k (fold_left step l d) = dict_get k d.
Proof.
  intros Hstep. induction l as [|s l IH]; intros d Hl; [reflexivity|].
  apply last_titled_cons_none in Hl. destruct Hl as [Hne Hl].
  simpl. rewrite IH by assumption. now apply Hstep.
Qed.

(** X9.  A pass touches only the identities its file names: an identity for
    which [overrides.md] (resp. the developer file) has no section keeps its
    entry, or its absence, through the project (resp. developer) pass. *)
Theorem unnamed_identity_is_untouched :
  forall (cfg : Config) (fs : FileSystem) (M : Dict) (u k : string),
    (last_titled k (tier_sections (project_overrides fs) project) = None ->
     dict_get k (apply_project_customizations fs M) = dict_get k M) /\
    (last_titled k (tier_sections (project_developer fs u) developer) = None ->
     dict_get k (apply_developer_preferences cfg fs M u) = dict_get k M).
Proof.
  intros cfg fs M u k. split; intros Hl.
  - rewrite apply_project_customizations_overrides.
    destruct (project_overrides fs) as [text|]; [|reflexivity].
    apply fold_untouched; [|exact Hl].
    intros d s Hne. now apply project_step_other.
  - rewrite apply_developer_preferences_developer.
    destruct (negb (config_developer_enabled cfg)); [reflexivity|].
    destruct (project_developer fs u) as [text|]; [|reflexivity].
    apply fold_untouched; [|exact Hl].
    intros d s Hne. now apply developer_step_other.
Qed.

(** *** What the change analysis contains *)

Lemma dict_mem_In k d : dict_mem k d = true <-> In k (dict_keys d).
Proof.
  unfold dict_mem, dict_keys. induction d as [|[k' v'] d IH]; simpl.
  - split; [discriminate | intros []].
  - destruct (String.eqb k k') eqn:E.
    + apply String.eqb_eq in E. subst. split; auto.
    + apply String.eqb_neq in E. rewrite IH. split; [auto|].
      intros [H|H]; [congruence | assumption].
Qed.

Lemma dict_mem_get k d : dict_mem k d = true <-> exists v, dict_get k d = Some v.
Proof.
  unfold dict_mem. destruct (dict_get k d) as [v|]; split; try discriminate.
  - intros _. now exists v.
  - reflexivity.
  - intros [v [=]].
Qed.

Lemma added_sections before after k :
  In k (map item_section (flat_map (added_of before) after)) <->
  dict_mem k after = true /\ dict_mem k before = false.
Proof.
  rewrite in_map_iff. split.
  - intros (i & Hi & Hin). apply in_flat_map in Hin.
    destruct Hin as ([k' v] & Hkv & Hadd). unfold added_of in Hadd. simpl in Hadd.
    destruct (dict_mem k' before) eqn:E; [contradiction|].
    destruct Hadd as [<-|[]]. simpl in Hi. subst k'.
    split; [now apply dict_In_mem with v | assumption].
  - intros [Ha Hb]. apply dict_mem_get in Ha. destruct Ha as [v Hv].
    exists {| item_section := k; item_source := source v;
              item_title := title v |}.
    split; [reflexivity|]. apply in_flat_map. exists (k, v).
    split; [now apply dict_get_In|]. unfold added_of. simpl.
    rewrite Hb. now left.
Qed.

Lemma modified_sections before after k :
  dict_wf after ->
  (In k (map mod_section (flat_map (modified_of before) after)) <->
   exists a b, dict_get k after = Some a /\ dict_get k before = Some b /\
               checksum a <> checksum b).
Proof.
  intros Hwf. rewrite in_map_iff. split.
  - intros (i & Hi & Hin). apply in_flat_map in Hin.
    destruct Hin as ([k' a] & Hkv & Hmod). unfold modified_of in Hmod.
    simpl in Hmod. destruct (dict_get k' before) as [b|] eqn:Hb; [|contradiction].
    destruct (String.eqb (checksum a) (checksum b)) eqn:E; [contradiction|].
    destruct Hmod as [<-|[]]. simpl in Hi. subst k'.
    exists a, b. split; [now apply dict_In_get|].
    split; [assumption | now apply String.eqb_neq].
  - intros (a & b & Ha & Hb & Hne).
    exists {| mod_section := k; mod_source_before := source b;
              mod_source_after := source a; mod_title := title a |}.
    split; [reflexivity|]. apply in_flat_map. exists (k, a).
    split; [now apply dict_get_In|]. unfold modified_of. simpl. rewrite Hb.
    apply String.eqb_neq in Hne. rewrite Hne. now left.
Qed.

Lemma violation_sections before after k :
  dict_wf after ->
  (In k (map viol_section (flat_map (violation_of before) after)) <->
   exists a b, dict_get k after = Some a /\ dict_get k before = Some b /\
               source a = project /\ source b = company /\
               override_allowed b = false).
Proof.
  intros Hwf. rewrite in_map_iff. split.
  - intros (i & Hi & Hin). apply in_flat_map in Hin.
    destruct Hin as ([k' a] & Hkv & Hv). unfold violation_of in Hv. simpl in Hv.
    destruct (Source_eqb (source a) project) eqn:Ea; [|contradiction].
    destruct (dict_get k' before) as [b|] eqn:Hb; [|contradiction].
    destruct (Source_eqb (source b) company) eqn:Eb; [|contradiction].
    destruct (override_allowed b) eqn:Eo; [contradiction|].
    destruct Hv as [<-|[]]. simpl in Hi. subst k'.
    exists a, b. apply Source_eqb_eq in Ea, Eb.
    repeat split; try assumption. now apply dict_In_get.
  - intros (a & b & Ha & Hb & Hsa & Hsb & Ho).
    exists {| viol_section := k;
              viol_policy := "Cannot override company policy";
              viol_attempted_by := source a |}.
    split; [reflexivity|]. apply in_flat_map. exists (k, a).
    split; [now apply dict_get_In|]. unfold violation_of. simpl.
    rewrite Hsa, Hb, Hsb, Ho. now left.
Qed.

(** X10.  [analyze_changes] lists under [added] exactly the keys of the
    second mapping that the first lacks, under [removed] exactly the keys of
    the first that the second lacks, and under [modified] exactly the keys
    held by both whose checksums differ; a change of tier alone is not a
    modification. *)
Theorem analyze_changes_lists :
  forall (cfg : Config) (before after : Dict) (k : string),
    NoDup (dict_keys after) ->
    (In k (map item_section (added (analyze_changes cfg before after))) <->
     dict_mem k after = true /\ dict_mem k before = false) /\
    (In k (map item_section (removed (analyze_changes cfg before after))) <->
     dict_mem k before = true /\ dict_mem k after = false) /\
    (In k (map mod_section (modified (analyze_changes cfg before after))) <->
     exists a b, dict_get k after = Some a /\ dict_get k before = Some b /\
                 checksum a <> checksum b).
Proof.
  intros cfg before after k Hwf. simpl. split; [|split].
  - apply added_sections.
  - apply (added_sections after before k).
  - now apply modified_sections.
Qed.

(** X11.  [analyze_changes] reports a policy violation for a key exactly
    when a company configuration is loaded, the second mapping holds a
    project section there and the first holds a company section with
    [override_allowed = False]; each entry names [project] as the attempting
    tier.  Without a company configuration it reports none. *)
Theorem analyze_changes_violations :
  forall (cfg : Config) (before after : Dict) (k : string),
    NoDup (dict_keys after) ->
    (cfg_company cfg = None ->
     policy_violations (analyze_changes cfg before after) = []) /\
    (cfg_company cfg <> None ->
     (In k (map viol_section
              (policy_violations (analyze_changes cfg before after))) <->
      exists a b, dict_get k after = Some a /\ dict_get k before = Some b /\
                  source a = project /\ source b = company /\
                  override_allowed b = false)) /\
    Forall (fun v => viol_attempted_by v = project)
           (policy_violations (analyze_changes cfg before after)).
Proof.
  intros cfg before after k Hwf. simpl. split; [|split].
  - intros ->. reflexivity.
  - intros Hc. destruct (cfg_company cfg); [|contradiction].
    now apply violation_sections.
  - destruct (cfg_company cfg); [|constructor].
    apply Forall_forall. intros v Hin. apply in_flat_map in Hin.
    destruct Hin as ([k' a] & _ & Hv). unfold violation_of in Hv. simpl in Hv.
    destruct (Source_eqb (source a) project) eqn:Ea; [|contradiction].
    destruct (dict_get k' before) as [b|]; [|contradiction].
    destruct (Source_eqb (source b) company && negb (override_allowed b));
      [|contradiction].
    destruct Hv as [<-|[]]. simpl. now apply Source_eqb_eq.
Qed.

(** *** What [merge] reports and writes *)

Lemma keys_extend_mem d d' k :
  keys_extend d d' -> dict_mem k d = true -> dict_mem k d' = true.
Proof.
  intros [new H]. rewrite !dict_mem_In, H. intros Hin.
  apply in_or_app. now left.
Qed.

Lemma merge_sections_extend cfg fs username :
  config_has_roles cfg = false ->
  keys_extend (fst (merge_sections cfg fs username))
              (snd (merge_sections cfg fs username)).
Proof.
  intros Hroles. unfold merge_sections. simpl.
  assert (H : keys_extend (load_universal_base fs)
                (apply_project_customizations fs
                   (apply_company_overrides cfg fs (load_universal_base fs)))).
  { apply keys_extend_trans
      with (d2 := apply_company_overrides cfg fs (load_universal_base fs));
      [now apply company_pass_extend | apply project_pass_extend]. }
  destruct (username_given username); [|assumption].
  eapply keys_extend_trans; [exact H | apply developer_pass_extend].
Qed.

(** X12.  When no roles are configured, [merge] never drops a section: the
    resolved mapping lists the universal keys first, in their order, and the
    analysis against the universal baseline has an empty [removed] list. *)
Theorem merge_without_roles_removes_nothing :
  forall (cfg : Config) (fs : FileSystem) (username : option string),
    config_has_roles cfg = false ->
    (exists new,
        dict_keys (snd (merge_sections cfg fs username))
        = (dict_keys (fst (merge_sections cfg fs username)) ++ new)%list) /\
    removed (analyze_changes cfg (fst (merge_sections cfg fs username))
                                 (snd (merge_sections cfg fs username))) = [].
Proof.
  intros cfg fs username Hroles.
  pose proof (merge_sections_extend cfg fs username Hroles) as Hext.
  split; [exact Hext|]. unfold analyze_changes. cbn [removed].
  apply flat_map_nil. intros [k v] Hin.
  unfold removed_of. cbn [fst snd].
  now rewrite (keys_extend_mem _ _ k Hext (dict_In_mem k v _ Hin)).
Qed.

Lemma digest_of_parsed src s :
  parsed_section src s -> checksum s = md5_hexdigest (content s).
Proof. now intros (_ & _ & H). Qed.

(** X13.  In the analysis that [merge] runs, a key is listed under
    [modified] exactly when the universal and the resolved section differ in
    the MD5 digest of their content; a later tier that repeats the universal
    content is not listed. *)
Theorem merge_modified_iff_digest_differs :
  forall (cfg : Config) (fs : FileSystem) (username : option string)
         (k : string),
    In k (map mod_section
            (modified
               (analyze_changes cfg (fst (merge_sections cfg fs username))
                                    (snd (merge_sections cfg fs username)))))
    <->
    exists a b,
      dict_get k (snd (merge_sections cfg fs username)) = Some a /\
      dict_get k (fst (merge_sections cfg fs username)) = Some b /\
      md5_hexdigest (content a) <> md5_hexdigest (content b).
Proof.
  intros cfg fs username k.
  destruct (resolved_inv (fun s => checksum s = md5_hexdigest (content s))
              cfg fs username digest_of_parsed) as [Hwf Hres].
  destruct (load_universal_base_parsed fs) as [_ Hbase].
  unfold analyze_changes. cbn [modified].
  rewrite modified_sections by exact Hwf.
  split; intros (a & b & Ha & Hb & Hne); exists a, b;
    (split; [exact Ha|]); (split; [exact Hb|]);
    rewrite (Hres _ _ Ha), (digest_of_parsed _ _ (Hbase _ _ Hb)) in *;
    exact Hne.
Qed.

Lemma resolved_inv_without_developer (Q : MdSection -> Prop) cfg fs username :
  username_given username = None \/ config_developer_enabled cfg = false ->
  (forall s, parsed_section universal s -> Q s) ->
  (forall s, parsed_section company s -> Q s) ->
  (forall s, parsed_section project s -> Q s) ->
  dict_inv Q (snd (merge_sections cfg fs username)).
Proof.
  intros Hoff Hu Hc Hp. unfold merge_sections. simpl.
  assert (H : dict_inv Q
            (apply_project_customizations fs
               (apply_company_overrides cfg fs (load_universal_base fs)))).
  { apply project_pass_inv; [exact Hp|].
    apply company_pass_inv; [exact Hc|].
    apply dict_inv_weaken with (Q := parsed_section universal);
      [exact Hu | apply load_universal_base_parsed]. }
  destruct Hoff as [Hnone | Hoff].
  - now rewrite Hnone.
  - destruct (username_given username) as [u|]; [|assumption].
    now rewrite apply_developer_preferences_developer, Hoff.
Qed.

(** X14.  Without a user name, or with developer overrides not enabled in the
    project configuration, the resolved mapping holds no developer section,
    whatever files lie under [.claude-project/developer]. *)
Theorem no_developer_section_unless_enabled :
  forall (cfg : Config) (fs : FileSystem) (username : option string)
         (k : string) (v : MdSection),
    username_given username = None \/ config_developer_enabled cfg = false ->
    dict_get k (snd (merge_sections cfg fs username)) = Some v ->
    source v <> developer.
Proof.
  intros cfg fs username k v Hoff Hget.
  destruct (resolved_inv_without_developer (fun s => source s <> developer)
              cfg fs username Hoff) as [_ Hall];
    try (intros s (Hs & _); rewrite Hs; discriminate).
  now apply (Hall k).
Qed.

Lemma merge_commit_eq cfg amb fs username :
  merge cfg amb fs username false =
    (Returned (generate_claude_md amb (snd (merge_sections cfg fs username))),
     {| core_md := core_md fs; languages_dir := languages_dir fs;
        claude_company := claude_company fs;
        claude_project := claude_project fs;
        CLAUDE_md :=
          Some (generate_claude_md amb (snd (merge_sections cfg fs username)));
        CLAUDE_md_backup :=
          match CLAUDE_md fs with
          | Some old => Some old
          | None => CLAUDE_md_backup fs
          end |}).
Proof.
  rewrite merge_unfold. unfold merge_output.
  now rewrite merge_reports_nothing.
Qed.

(** X15.  The policy gate of [merge] never fires.  Against a baseline
    whose sections all come from the universal tier, [analyze_changes]
    reports no policy violation whatever the second mapping holds; the
    baseline of [merge] is such a mapping, so the analysis [merge] runs on
    its baseline and its resolved mapping always has an empty
    [policy_violations] list. *)
Theorem merge_policy_gate_never_fires :
  forall (cfg : Config),
    (forall before after,
        (forall k v, dict_get k before = Some v -> source v = universal) ->
        policy_violations (analyze_changes cfg before after) = []) /\
    (forall fs username,
        policy_violations
          (analyze_changes cfg (fst (merge_sections cfg fs username))
                               (snd (merge_sections cfg fs username))) = []).
Proof.
  intros cfg. split.
  - intros before after Hbase. unfold analyze_changes. cbn [policy_violations].
    destruct (cfg_company cfg); [|reflexivity].
    apply flat_map_nil. intros [k v] _. apply violation_of_nil.
    intros o Ho _ [_ Hc]. rewrite (Hbase k o Ho) in Hc. discriminate.
  - intros fs username. apply merge_reports_nothing.
Qed.

(** X16.  After two committed runs on the same tier files, [CLAUDE.md] holds
    the second run's document and [CLAUDE.md.backup] the first run's: only
    one backup is kept, and whatever was at the destination or in the backup
    before the first run is gone. *)
Theorem second_commit_backs_up_first :
  forall (cfg : Config) (amb1 amb2 : Ambient) (fs : FileSystem)
         (username : option string),
    let fs1 := snd (merge cfg amb1 fs username false) in
    let fs2 := snd (merge cfg amb2 fs1 username false) in
    CLAUDE_md fs2
      = Some (generate_claude_md amb2 (snd (merge_sections cfg fs username))) /\
    CLAUDE_md_backup fs2
      = Some (generate_claude_md amb1 (snd (merge_sections cfg fs username))).
Proof.
  intros cfg amb1 amb2 fs username fs1 fs2.
  assert (Hsame : merge_sections cfg fs1 username
                  = merge_sections cfg fs username).
  { apply merge_sections_same_inputs, merge_keeps_tier_inputs. }
  unfold fs2. rewrite merge_commit_eq. cbn [snd CLAUDE_md CLAUDE_md_backup].
  rewrite Hsame. split; [reflexivity|].
  unfold fs1. rewrite merge_commit_eq. reflexivity.
Qed.

(** *** The rendered document *)

Lemma flat_map_incl {A B : Type} (f : A -> list B) (l : list A) x y :
  In x l -> In y (f x) -> In y (flat_map f l).
Proof. intros Hx Hy. apply in_flat_map. now exists x. Qed.

(** X19.  Every section of the mapping is rendered: its heading line, made
    of [level] hash signs, a space and the title, occurs among the lines of
    the document, and so does its content when it is not empty. *)
Theorem every_section_is_rendered :
  forall (amb : Ambient) (M : Dict) (k : string) (v : MdSection),
    In (k, v) M ->
    In (str_repeat "#" (level v) ++ " " ++ title v)
       (generate_claude_md_lines amb M) /\
    (content v <> EmptyString ->
     In (content v) (generate_claude_md_lines amb M)).
Proof.
  intros amb M k v Hin.
  assert (Hs : In v (sorted_sections M)).
  { apply (Permutation_in v (sorted_sections_perm M)).
    unfold dict_values. change v with (snd (k, v)). now apply in_map. }
  unfold generate_claude_md_lines. split.
  - apply in_or_app. right. apply (flat_map_incl _ _ v); [assumption|].
    unfold render_section. left. reflexivity.
  - intros Hne. apply in_or_app. right.
    apply (flat_map_incl _ _ v); [assumption|].
    unfold render_section. apply String.eqb_neq in Hne. rewrite Hne.
    right. right. left. reflexivity.
Qed.

(** *** The dry-run report *)

Lemma concat_cons sep x y l :
  String.concat sep (x :: y :: l) = x ++ sep ++ String.concat sep (y :: l).
Proof. reflexivity. Qed.

Lemma concat_app_nonempty sep A B :
  A <> [] -> B <> [] ->
  String.concat sep (A ++ B)%list
  = String.concat sep A ++ sep ++ String.concat sep B.
Proof.
  intros HA HB. induction A as [|a A IH]; [contradiction|].
  destruct A as [|a' A].
  - destruct B as [|b B]; [contradiction|]. reflexivity.
  - change ((a :: a' :: A) ++ B)%list with (a :: a' :: (A ++ B)%list).
    rewrite !concat_cons.
    change (a' :: (A ++ B)%list) with ((a' :: A) ++ B)%list.
    rewrite IH by discriminate. now rewrite !str_append_assoc.
Qed.

Lemma split_lines_aux_nonempty cur s : split_lines_aux cur s <> [].
Proof.
  revert cur. induction s as [|c s IH]; intros cur; simpl; [discriminate|].
  destruct (Ascii.eqb c (ascii_of_nat 10)); [discriminate | apply IH].
Qed.

Lemma split_lines_aux_join s : forall cur,
  String.concat nl (split_lines_aux cur s) = cur ++ s.
Proof.
  induction s as [|c s IH]; intros cur; simpl.
  - now rewrite str_append_nil_r.
  - destruct (Ascii.eqb c (ascii_of_nat 10)) eqn:E.
    + apply Ascii.eqb_eq in E. subst c.
      pose proof (split_lines_aux_nonempty EmptyString s) as Hne.
      destruct (split_lines_aux EmptyString s) as [|y l] eqn:Hs;
        [contradiction|].
      rewrite concat_cons, <- Hs, IH. reflexivity.
    + rewrite IH, str_append_assoc. reflexivity.
Qed.

(** [s.split('\n')] joined again with newlines is [s]. *)
Lemma split_lines_join s : String.concat nl (split_lines s) = s.
Proof. unfold split_lines. now rewrite split_lines_aux_join. Qed.

Lemma firstn_nonempty {A : Type} n (l : list A) :
  l <> [] -> firstn (S n) l <> [].
Proof. destruct l; [contradiction | discriminate]. Qed.

Lemma report_shape amb changes text :
  exists head_lines,
    head_lines <> [] /\
    generate_dry_run_report amb changes text =
    String.concat nl
      (head_lines
       ++ ["PREVIEW (first 50 lines)"; str_repeat "-" 20]
       ++ firstn 50 (split_lines text)
       ++ (if Nat.ltb 50 (List.length (split_lines text))
           then ["... (truncated)"] else []))%list.
Proof.
  unfold generate_dry_run_report.
  match goal with
  | |- context [String.concat nl (?L ++ ?a ++ ?r ++ ?m ++ ?v ++ _)%list] =>
      exists (L ++ a ++ r ++ m ++ v)%list
  end.
  split.
  - intros H. apply app_eq_nil in H. destruct H as [H _]. discriminate H.
  - rewrite <- !app_assoc. reflexivity.
Qed.

(** X20.  The dry-run report ends with the preview: after the heading
    [PREVIEW (first 50 lines)] and its rule comes the whole document when it
    has at most 50 lines, and otherwise its first 50 lines followed by the
    line [... (truncated)]. *)
Theorem dry_run_report_preview :
  forall (amb : Ambient) (changes : Changes) (text : string),
    (List.length (split_lines text) <= 50 ->
     exists head,
       generate_dry_run_report amb changes text =
       head ++ nl ++ "PREVIEW (first 50 lines)" ++ nl ++ str_repeat "-" 20
            ++ nl ++ text) /\
    (50 < List.length (split_lines text) ->
     exists head,
       generate_dry_run_report amb changes text =
       head ++ nl ++ "PREVIEW (first 50 lines)" ++ nl ++ str_repeat "-" 20
            ++ nl ++ String.concat nl (firstn 50 (split_lines text))
            ++ nl ++ "... (truncated)").
Proof.
  intros amb changes text.
  destruct (report_shape amb changes text) as (hl & Hhl & ->).
  assert (Hsl : split_lines text <> [])
    by apply split_lines_aux_nonempty.
  split; intros Hlen; exists (String.concat nl hl).
  - apply Nat.ltb_ge in Hlen as Hlt. rewrite Hlt, app_nil_r.
    rewrite firstn_all2 by exact Hlen.
    rewrite concat_app_nonempty; [|assumption|discriminate].
    rewrite (concat_app_nonempty nl [_; _] (split_lines text));
      [|discriminate|assumption].
    rewrite split_lines_join, concat_cons.
    now rewrite !str_append_assoc.
  - apply Nat.ltb_lt in Hlen as Hlt. rewrite Hlt.
    rewrite concat_app_nonempty; [|assumption|discriminate].
    rewrite (concat_app_nonempty nl [_; _]);
      [|discriminate|].
    + rewrite (concat_app_nonempty nl (firstn 50 (split_lines text)));
        [|now apply firstn_nonempty|discriminate].
      rewrite concat_cons. now rewrite !str_append_assoc.
    + intros H. apply app_eq_nil in H. destruct H as [_ H]. discriminate H.
Qed.

End Properties.

(** ** The properties on the concrete inputs *)

(** C1.  The organization tier holds [A] with [override_allowed = false]
    and the project tier supplies a section titled [A].  The project pass
    rejects it, and the analysis of the mapping before and after the pass
    reports no policy violation: nothing is recorded for the rejected
    attempt. *)
Theorem rejected_override_is_not_reported :
  let before := [("A", ex_locked_A)] in
  let after := @apply_project_customizations ex_lib ex_fs before in
  @parse_markdown_sections ex_lib ex_proj_A project = [ex_project_A] /\
  after = before /\
  policy_violations (analyze_changes ex_cfg before after) = [].
Proof. vm_compute. repeat split. Qed.

(** The analysis derives its violations from the two mappings alone: here no
    pass ran at all. *)
Example violation_read_off_the_mappings :
  policy_violations
    (analyze_changes ex_cfg [("A", ex_locked_A)] [("A", ex_project_A)])
  = [ {| viol_section := "A";
         viol_policy := "Cannot override company policy";
         viol_attempted_by := project |} ].
Proof. reflexivity. Qed.

Lemma project_rejects_locked_company_witness :
  project_step [("A", ex_locked_A)] ex_project_A = [("A", ex_locked_A)] /\
  dict_get "A" (@apply_project_customizations ex_lib ex_fs [("A", ex_locked_A)])
    = Some ex_locked_A.
Proof.
  destruct (@project_rejects_locked_company ex_lib
              [("A", ex_locked_A)] ex_project_A ex_locked_A
              eq_refl eq_refl eq_refl) as (Hstep & _ & Hpass).
  split; [exact Hstep | exact (Hpass ex_fs)].
Defined.

Lemma merge_never_writes_on_dry_run_or_violation_witness :
  policy_violations
    (analyze_changes ex_cfg [("A", ex_locked_A)] [("A", ex_project_A)]) <> [] /\
  CLAUDE_md (snd (@merge ex_lib ex_cfg ex_amb ex_fs (Some "dana") true))
    = CLAUDE_md ex_fs /\
  exists msg,
    merge_output ex_cfg ex_amb false [("A", ex_locked_A)] [("A", ex_project_A)]
                 "text" ex_fs
    = (Raised_ValueError msg, ex_fs).
Proof.
  assert (Hviol : policy_violations
            (analyze_changes ex_cfg [("A", ex_locked_A)] [("A", ex_project_A)])
            <> []) by (vm_compute; discriminate).
  destruct (@merge_never_writes_on_dry_run_or_violation ex_lib ex_cfg ex_amb)
    as (Hdry & _ & Hcommit).
  split; [exact Hviol|]. split.
  - exact (proj1 (Hdry ex_fs (Some "dana"))).
  - exact (Hcommit _ _ "text" ex_fs Hviol).
Defined.

(** C4, as stated, fails: the same inputs resolved one second apart give two
    different documents. *)
Lemma merge_twice_documents_differ :
  let first := @merge ex_lib ex_cfg ex_amb ex_fs (Some "dana") false in
  let second :=
    @merge ex_lib ex_cfg ex_amb_later (snd first) (Some "dana") false in
  @merge_sections ex_lib ex_cfg (snd first) (Some "dana")
    = @merge_sections ex_lib ex_cfg ex_fs (Some "dana") /\
  fst first <> fst second.
Proof. vm_compute. split; [reflexivity | discriminate]. Qed.

Lemma merge_twice_same_mapping_witness :
  let fs1 := snd (@merge ex_lib ex_cfg ex_amb ex_fs (Some "dana") false) in
  generate_claude_md ex_amb
    (snd (@merge_sections ex_lib ex_cfg fs1 (Some "dana")))
  = generate_claude_md ex_amb
      (snd (@merge_sections ex_lib ex_cfg ex_fs (Some "dana"))) /\
  tl (generate_claude_md_lines ex_amb_later
        (snd (@merge_sections ex_lib ex_cfg fs1 (Some "dana"))))
  = tl (generate_claude_md_lines ex_amb
          (snd (@merge_sections ex_lib ex_cfg ex_fs (Some "dana")))) /\
  generate_claude_md ex_amb_later
    (snd (@merge_sections ex_lib ex_cfg fs1 (Some "dana")))
  <> generate_claude_md ex_amb
       (snd (@merge_sections ex_lib ex_cfg ex_fs (Some "dana"))).
Proof.
  split; [|split].
  - destruct (@merge_twice_same_mapping ex_lib ex_cfg ex_fs (Some "dana")
                ex_amb ex_amb false) as (_ & _ & _ & _ & Hdoc & _).
    exact (Hdoc eq_refl eq_refl).
  - destruct (@merge_twice_same_mapping ex_lib ex_cfg ex_fs (Some "dana")
                ex_amb ex_amb_later false) as (_ & _ & _ & _ & _ & Htail & _).
    exact (Htail eq_refl).
  - destruct (@merge_twice_same_mapping ex_lib ex_cfg ex_fs (Some "dana")
                ex_amb ex_amb_later false) as (_ & _ & _ & _ & _ & _ & Hdiff).
    apply (Hdiff eq_refl). discriminate.
Defined.

Lemma developer_rejects_policy_tiers_witness :
  override_allowed ex_universal_A = true /\
  developer_step [("A", ex_universal_A)] ex_developer_A
    = [("A", ex_universal_A)] /\
  dict_get "A"
    (@apply_developer_preferences ex_lib ex_cfg ex_fs
       [("A", ex_universal_A)] "dana") = Some ex_universal_A /\
  (source ex_project_A = project \/ source ex_project_A = developer).
Proof.
  destruct (@developer_rejects_policy_tiers ex_lib
              [("A", ex_universal_A)] ex_developer_A ex_universal_A eq_refl)
    as (Hrej & _).
  destruct (Hrej (or_introl eq_refl)) as (Hstep & Hpass).
  destruct (@developer_rejects_policy_tiers ex_lib
              [("A", ex_project_A)] ex_developer_A ex_project_A eq_refl)
    as (_ & Honly).
  split; [reflexivity|]. split; [exact Hstep|].
  split; [exact (Hpass ex_cfg ex_fs "dana")|].
  apply Honly. vm_compute. discriminate.
Defined.

Lemma resolved_tier_precedence_witness :
  held_by (eq developer) "A"
    (snd (@merge_sections ex_lib ex_cfg ex_fs (Some "dana"))) /\
  held_by (eq project) "A" (snd (@merge_sections ex_lib ex_cfg ex_fs None)).
Proof.
  assert (Hco : @supplies ex_lib (Some ex_org_A) company "A").
  { exists ex_org_A. eexists. split; [reflexivity|].
    split; [left; reflexivity | reflexivity]. }
  assert (Hpr : @supplies ex_lib (project_overrides ex_fs) project "A").
  { exists ex_proj_A, ex_project_A. split; [reflexivity|].
    split; [left; reflexivity | reflexivity]. }
  assert (Hde : @supplies ex_lib (project_developer ex_fs "dana") developer "A").
  { exists ex_dev_A, ex_developer_A. split; [reflexivity|].
    split; [left; reflexivity | reflexivity]. }
  split.
  - destruct (@resolved_tier_precedence ex_lib ex_cfg ex_fs (Some "dana") "A"
                {| standards_md := Some ex_org_A |} eq_refl eq_refl Hco Hpr)
      as (Hind & _).
    exact (Hind "dana" eq_refl eq_refl Hde).
  - destruct (@resolved_tier_precedence ex_lib ex_cfg ex_fs None "A"
                {| standards_md := Some ex_org_A |} eq_refl eq_refl Hco Hpr)
      as (_ & Hproj).
    exact (Hproj (or_introl eq_refl)).
Defined.

(** C7, as stated, fails: with no universal material at all, [merge] returns
    the document and writes it. *)
Lemma missing_universal_base_still_writes :
  @load_universal_base ex_lib ex_fs_empty = [] /\
  fst (@merge ex_lib ex_cfg ex_amb ex_fs_empty None false)
    = Returned (generate_claude_md ex_amb []) /\
  CLAUDE_md (snd (@merge ex_lib ex_cfg ex_amb ex_fs_empty None false))
    = Some (generate_claude_md ex_amb []).
Proof. vm_compute. repeat split. Qed.

Lemma missing_universal_base_is_not_fatal_witness :
  @load_universal_base ex_lib ex_fs_empty = [] /\
  exists text fs',
    @merge ex_lib ex_cfg ex_amb ex_fs_empty None false = (Returned text, fs') /\
    CLAUDE_md fs' = Some text.
Proof.
  exact (@missing_universal_base_is_not_fatal ex_lib ex_cfg ex_amb ex_fs_empty
           None eq_refl eq_refl).
Defined.

(** C8, as stated, fails: of the two language sections, [b:A] is rendered
    before [a:Z] although [a:Z] is the smaller identity. *)
Lemma rendering_not_in_identity_order :
  ~ rendered_in_identity_order (@load_universal_base ex_lib ex_fs_languages).
Proof.
  intros H.
  specialize (H [] (mkSection "A" "alpha" 1 universal
                      "2c1743a391305fbf367df8e4f069f9f9" true
                      [("language", "b")])
                [] (mkSection "Z" "zeta" 1 universal
                      "e26026b73cdc3b59012c318ba26b5518" true
                      [("language", "a")])
                [] "b:A" "a:Z" eq_refl).
  destruct H as [Hlt | [_ Hle]].
  - right. left. reflexivity.
  - left. reflexivity.
  - simpl in Hlt. lia.
  - vm_compute in Hle. discriminate.
Qed.

Lemma rendering_sorted_by_level_then_title_witness :
  (level ex_plain_A < level ex_plain_B \/
   (level ex_plain_A = level ex_plain_B /\
    String.leb (title ex_plain_A) (title ex_plain_B) = true)) /\
  rendered_in_identity_order [("B", ex_plain_B); ("A", ex_plain_A)].
Proof.
  destruct (rendering_sorted_by_level_then_title ex_amb
              [("B", ex_plain_B); ("A", ex_plain_A)])
    as (_ & _ & Hord & _ & Hid).
  split.
  - exact (Hord [] ex_plain_A [] ex_plain_B [] eq_refl).
  - apply Hid. intros k s [Hin | [Hin | []]]; inversion Hin; reflexivity.
Defined.

Lemma same_content_still_replaces_witness :
  content ex_company_same_A = content ex_universal_A /\
  dict_get "A" (company_step [("A", ex_universal_A)] ex_company_same_A)
    = Some ex_company_same_A /\
  dict_get "A" (project_step [("A", ex_universal_A)] ex_project_same_A)
    = Some ex_project_same_A /\
  dict_get "A" (developer_step [("A", ex_project_A)] ex_developer_same_A)
    = Some ex_developer_same_A.
Proof.
  destruct (same_content_still_replaces [("A", ex_universal_A)]
              ex_company_same_A ex_universal_A eq_refl eq_refl)
    as (Hco & _ & _).
  destruct (same_content_still_replaces [("A", ex_universal_A)]
              ex_project_same_A ex_universal_A eq_refl eq_refl)
    as (_ & Hpr & _).
  destruct (same_content_still_replaces [("A", ex_project_A)]
              ex_developer_same_A ex_project_A eq_refl eq_refl)
    as (_ & _ & Hde).
  split; [reflexivity|]. split; [exact Hco|]. split.
  - apply Hpr. intros [Hf _]. discriminate Hf.
  - apply Hde. left. reflexivity.
Defined.

Lemma override_flag_only_guards_company_from_project_witness :
  dict_get "A" (project_step [("A", ex_locked_universal_A)] ex_project_A)
    = Some ex_project_A /\
  (override_allowed ex_locked_A = false /\ source ex_locked_A = company) /\
  developer_step [("A", ex_locked_project_A)] ex_developer_A
    = [("A", ex_developer_A)].
Proof.
  destruct (override_flag_only_guards_company_from_project
              [("A", ex_locked_universal_A)] ex_project_A)
    as (_ & Hrepl & _ & _).
  destruct (override_flag_only_guards_company_from_project
              [("A", ex_locked_A)] ex_project_A)
    as (_ & _ & Honly & _).
  destruct (override_flag_only_guards_company_from_project
              [("A", ex_locked_project_A)] ex_developer_A)
    as (_ & _ & _ & Hdev).
  split; [|split].
  - apply (Hrepl ex_locked_universal_A eq_refl eq_refl). discriminate.
  - apply (Honly ex_locked_A eq_refl). vm_compute. discriminate.
  - exact (Hdev ex_locked_project_A eq_refl).
Defined.

(** ** The further properties on the concrete inputs *)

Lemma load_universal_base_keys_witness :
  exists v,
    dict_get "b:A" (@load_universal_base ex_lib ex_fs_languages) = Some v /\
    source v = universal /\
    ("b:A" = title v \/
     exists stem, "b:A" = stem ++ ":" ++ title v /\
                  assoc_get "language" (metadata v) = Some stem).
Proof.
  eexists. split; [reflexivity|].
  exact (proj2 (@load_universal_base_keys ex_lib ex_fs_languages)
           "b:A" _ eq_refl).
Defined.

Lemma role_filter_removes_exactly_matches_witness :
  dict_get "A" ex_with_experimental = Some ex_universal_A /\
  forall e, In e ["experimental"] ->
            ~ occurs_in e (ascii_lower (title ex_universal_A)).
Proof.
  assert (Hwf : NoDup (dict_keys ex_with_experimental)).
  { repeat constructor; simpl; intuition discriminate. }
  exact (proj1 (proj2 (@role_filter_removes_exactly_matches ex_lib
                         ex_cfg_roles ex_with_experimental)
                  {| exclude_sections := ["experimental"] |} eq_refl Hwf
                  "A" ex_universal_A) eq_refl).
Defined.

Lemma role_filter_empty_keyword_removes_all_witness :
  @_apply_role_filters ex_lib ex_cfg_empty_keyword ex_with_experimental = [].
Proof.
  exact (@role_filter_empty_keyword_removes_all ex_lib ex_cfg_empty_keyword
           ex_with_experimental {| exclude_sections := [EmptyString] |}
           eq_refl (or_introl eq_refl)).
Defined.

Lemma company_pass_last_section_wins_witness :
  dict_get "A" (@apply_company_overrides ex_lib ex_cfg ex_fs
                  [("A", ex_universal_A)])
  = @overridden_by "A"
      (@tier_sections ex_lib (Some ex_org_A) company) [("A", ex_universal_A)].
Proof.
  exact (@company_pass_last_section_wins ex_lib ex_cfg ex_fs
           [("A", ex_universal_A)] {| standards_md := Some ex_org_A |} "A"
           eq_refl eq_refl).
Defined.

Lemma absent_identity_is_introduced_witness :
  held_by (eq project) "A" (@apply_project_customizations ex_lib ex_fs []) /\
  held_by (eq developer) "A"
    (@apply_developer_preferences ex_lib ex_cfg ex_fs [] "dana").
Proof.
  assert (Hpr : @supplies ex_lib (project_overrides ex_fs) project "A").
  { exists ex_proj_A, ex_project_A. split; [reflexivity|].
    split; [left; reflexivity | reflexivity]. }
  assert (Hde : @supplies ex_lib (project_developer ex_fs "dana") developer "A").
  { exists ex_dev_A, ex_developer_A. split; [reflexivity|].
    split; [left; reflexivity | reflexivity]. }
  destruct (@absent_identity_is_introduced ex_lib ex_cfg ex_fs [] "dana" "A"
              eq_refl) as [Hp Hd].
  split; [exact (Hp Hpr) | exact (Hd eq_refl Hde)].
Defined.

Lemma tier_passes_append_keys_witness :
  exists new,
    dict_keys (@apply_company_overrides ex_lib ex_cfg ex_fs [("B", ex_plain_B)])
    = (dict_keys [("B", ex_plain_B)] ++ new)%list.
Proof.
  exact (proj2 (proj2 (@tier_passes_append_keys ex_lib ex_cfg ex_fs
                         [("B", ex_plain_B)] "dana")) eq_refl).
Defined.

Lemma unnamed_identity_is_untouched_witness :
  dict_get "B" (@apply_project_customizations ex_lib ex_fs [("B", ex_plain_B)])
    = Some ex_plain_B /\
  dict_get "B" (@apply_developer_preferences ex_lib ex_cfg ex_fs
                  [("B", ex_plain_B)] "dana") = Some ex_plain_B.
Proof.
  destruct (@unnamed_identity_is_untouched ex_lib ex_cfg ex_fs
              [("B", ex_plain_B)] "dana" "B") as [Hp Hd].
  split; [exact (Hp eq_refl) | exact (Hd eq_refl)].
Defined.

Lemma analyze_changes_lists_witness :
  In "B" (map item_section
            (added (analyze_changes ex_cfg [("A", ex_universal_A)]
                      [("A", ex_project_A); ("B", ex_plain_B)]))) /\
  exists a b,
    dict_get "A" [("A", ex_project_A); ("B", ex_plain_B)] = Some a /\
    dict_get "A" [("A", ex_universal_A)] = Some b /\
    checksum a <> checksum b.
Proof.
  assert (Hwf : NoDup (dict_keys [("A", ex_project_A); ("B", ex_plain_B)])).
  { repeat constructor; simpl; intuition discriminate. }
  destruct (analyze_changes_lists ex_cfg [("A", ex_universal_A)]
              [("A", ex_project_A); ("B", ex_plain_B)] "B" Hwf)
    as (Hadd & _ & _).
  destruct (analyze_changes_lists ex_cfg [("A", ex_universal_A)]
              [("A", ex_project_A); ("B", ex_plain_B)] "A" Hwf)
    as (_ & _ & Hmod).
  split.
  - apply Hadd. split; reflexivity.
  - apply Hmod. left. reflexivity.
Defined.

Lemma analyze_changes_violations_witness :
  exists a b,
    dict_get "A" [("A", ex_project_A)] = Some a /\
    dict_get "A" [("A", ex_locked_A)] = Some b /\
    source a = project /\ source b = company /\ override_allowed b = false.
Proof.
  assert (Hwf : NoDup (dict_keys [("A", ex_project_A)])).
  { repeat constructor; simpl; intuition. }
  destruct (analyze_changes_violations ex_cfg [("A", ex_locked_A)]
              [("A", ex_project_A)] "A" Hwf) as (_ & Hiff & _).
  apply Hiff; [discriminate | left; reflexivity].
Defined.

Lemma merge_without_roles_removes_nothing_witness :
  removed
    (analyze_changes ex_cfg
       (fst (@merge_sections ex_lib ex_cfg ex_fs (Some "dana")))
       (snd (@merge_sections ex_lib ex_cfg ex_fs (Some "dana")))) = [].
Proof.
  exact (proj2 (@merge_without_roles_removes_nothing ex_lib ex_cfg ex_fs
                  (Some "dana") eq_refl)).
Defined.

Lemma merge_modified_iff_digest_differs_witness :
  exists a b,
    dict_get "A" (snd (@merge_sections ex_lib ex_cfg ex_fs (Some "dana")))
      = Some a /\
    dict_get "A" (fst (@merge_sections ex_lib ex_cfg ex_fs (Some "dana")))
      = Some b /\
    @md5_hexdigest ex_lib (content a) <> @md5_hexdigest ex_lib (content b).
Proof.
  apply (proj1 (@merge_modified_iff_digest_differs ex_lib ex_cfg ex_fs
                  (Some "dana") "A")).
  left. reflexivity.
Defined.

Lemma no_developer_section_unless_enabled_witness :
  source ex_project_A <> developer.
Proof.
  exact (@no_developer_section_unless_enabled ex_lib ex_cfg ex_fs None "A"
           ex_project_A (or_introl eq_refl) eq_refl).
Defined.

Lemma every_section_is_rendered_witness :
  In "# A" (generate_claude_md_lines ex_amb [("A", ex_universal_A)]) /\
  In "base body" (generate_claude_md_lines ex_amb [("A", ex_universal_A)]).
Proof.
  destruct (every_section_is_rendered ex_amb [("A", ex_universal_A)] "A"
              ex_universal_A (or_introl eq_refl)) as [Hh Hc].
  split; [exact Hh | apply Hc; discriminate].
Defined.

Lemma dry_run_report_preview_witness :
  (exists head,
      generate_dry_run_report ex_amb ex_no_changes ex_short_text =
      head ++ nl ++ "PREVIEW (first 50 lines)" ++ nl ++ str_repeat "-" 20
           ++ nl ++ ex_short_text) /\
  (exists head,
      generate_dry_run_report ex_amb ex_no_changes ex_long_text =
      head ++ nl ++ "PREVIEW (first 50 lines)" ++ nl ++ str_repeat "-" 20
           ++ nl ++ String.concat nl (firstn 50 (split_lines ex_long_text))
           ++ nl ++ "... (truncated)").
Proof.
  split.
  - apply (proj1 (dry_run_report_preview ex_amb ex_no_changes ex_short_text)).
    vm_compute. repeat constructor.
  - apply (proj2 (dry_run_report_preview ex_amb ex_no_changes ex_long_text)).
    vm_compute. repeat constructor.
Defined.

Lemma merge_policy_gate_never_fires_witness :
  policy_violations
    (analyze_changes ex_cfg [("A", ex_universal_A)] [("A", ex_project_A)]) = [].
Proof.
  apply (proj1 (@merge_policy_gate_never_fires ex_lib ex_cfg)).
  intros k v. simpl. destruct (String.eqb k "A"); [|discriminate].
  intros [= <-]. reflexivity.
Defined.
